(** * Hexagon hotspot engine ([etl/compute_hotspots.py])

    A shallow embedding of the hexagonal aggregation pipeline: the
    Web-Mercator projection pair, [make_hex_grid], [load_points], the
    spatial join, the per-hexagon aggregation, the density column and the
    export performed by [main].

    Python [float] values are idealised as exact reals ([R]); Python [int]
    values are [Z].  Float division keeps its one observable failure
    (division by zero), and the numpy division used inside the density
    column keeps its non-finite results: those of a zero divisor and the
    overflow of a quotient beyond the range of float64.  Rounding is not
    modelled, and the sums of the aggregation are exact: a run whose
    weights add up beyond the range of float64 is outside the model.
    Feature properties are numbers, nulls or texts; of a text only its
    presence is kept, and it is taken not to read as a number. *)

From Stdlib Require Import Reals Lra Lia ZArith List Bool String FinFun.
From Stdlib Require Import Permutation.
Import ListNotations.
Open Scope R_scope.

(** ** Numeric helpers *)

Definition Rltb (x y : R) : bool := if Rlt_dec x y then true else false.

(** Exceptions the modelled code can raise. *)
Inductive pyerror : Set := ZeroDivisionError | TypeError | ValueError.

Inductive result (A : Type) : Type :=
| Ok (a : A)
| Raise (e : pyerror).
Arguments Ok {A} a.
Arguments Raise {A} e.

Definition bind {A B : Type} (m : result A) (k : A -> result B) : result B :=
  match m with
  | Ok a => k a
  | Raise e => Raise e
  end.

Notation "x <- m ;; k" := (bind m (fun x => k))
  (at level 61, m at next level, right associativity).

(** Python's [a / b] on floats: raises on a zero divisor. *)
Definition pydiv (a b : R) : result R :=
  if Req_dec_T b 0 then Raise ZeroDivisionError else Ok (a / b).

(** [range(n)] for a Python int [n]. *)
Definition range (n : Z) : list Z := map Z.of_nat (seq 0 (Z.to_nat n)).

(** ** Projection adapter: EPSG:4326 <-> EPSG:3857 (spherical Mercator),
    the two [pyproj.Transformer(..., always_xy=True).transform] callables. *)

Definition EARTH_RADIUS : R := 6378137.

Definition to_merc (p : R * R) : R * R :=
  let '(lon, lat) := p in
  (EARTH_RADIUS * (lon * PI / 180),
   EARTH_RADIUS * ln (tan (PI / 4 + lat * PI / 180 / 2))).

Definition to_wgs (p : R * R) : R * R :=
  let '(x, y) := p in
  (x / EARTH_RADIUS * 180 / PI,
   (2 * atan (exp (y / EARTH_RADIUS)) - PI / 2) * 180 / PI).

(** ** Hex grid generator *)

Definition polygon := list (R * R).

(** The body of the [for i in range(6)] loop. *)
Definition hex_vertex_m (cx cy Rr : R) (i : nat) : R * R :=
  let ang := PI / 3 * INR i in
  let px := cx + Rr * cos ang in
  let py := cy + Rr * sin ang in
  (px, py).

Definition hexagon (cx cy Rr : R) : polygon :=
  map (fun i => to_wgs (hex_vertex_m cx cy Rr i)) (seq 0 6).

(** Centre of the cell at ([r], [c]). *)
Definition cell_cx (minx_m dx : R) (r c : Z) : R :=
  minx_m + IZR c * dx + (if Z.odd r then dx / 2 else 0).

Definition cell_cy (miny_m dy : R) (r : Z) : R := miny_m + IZR r * dy.

Definition hex_cells (minx_m miny_m dx dy Rr : R) (rows cols : Z)
  : list polygon :=
  flat_map (fun r =>
    map (fun c => hexagon (cell_cx minx_m dx r c) (cell_cy miny_m dy r) Rr)
        (range cols))
    (range rows).

Definition make_hex_grid (bounds_wgs84 : R * R * R * R) (hex_radius_m : Z)
  : result (list polygon) :=
  let '(minx, miny, maxx, maxy) := bounds_wgs84 in
  let '(minx_m, miny_m) := to_merc (minx, miny) in
  let '(maxx_m, maxy_m) := to_merc (maxx, maxy) in
  let pad := IZR (hex_radius_m * 2) in
  let minx_m := minx_m - pad in
  let miny_m := miny_m - pad in
  let maxx_m := maxx_m + pad in
  let maxy_m := maxy_m + pad in
  let Rr := IZR hex_radius_m in
  let dx := Rr * sqrt 3 in
  let dy := Rr * 1.5 in
  qx <- pydiv (maxx_m - minx_m) dx ;;
  let cols := (Zceil qx + 1)%Z in
  qy <- pydiv (maxy_m - miny_m) dy ;;
  let rows := (Zceil qy + 1)%Z in
  Ok (hex_cells minx_m miny_m dx dy Rr rows cols).

(** ** Point loader *)

Inductive shape : Type :=
| GPoint (x y : R)
| GOther.                      (* lines, polygons, multi-geometries *)

(** A feature of a collection: its geometry, its numeric (or null)
    properties and the names of its properties that hold a text.  A text
    is taken not to read as a number, alone or joined to the other texts
    of its column (a title, a description), and within one collection a
    property is taken to hold numbers or texts, not both. *)
Record feature : Type := {
  f_geometry : shape;
  f_props : list (string * option R);
  f_text : list string
}.

Inductive crs : Set := EPSG4326 | EPSG3857.

Inductive input_file : Type :=
| Missing                                      (* [not f.exists()] *)
| Unreadable                                   (* [gpd.read_file] raises *)
| Collection (declared : option crs) (features : list feature).

Record point_row : Type := {
  pt_xy : R * R;
  pt_props : list (string * option R);
  pt_text : list string
}.

(** A (Geo)DataFrame of points: its attribute columns and its rows. *)
Record frame : Type := {
  columns : list string;
  rows : list point_row
}.

(** [g.set_crs(4326)] when no CRS is declared, [g.to_crs(4326)] otherwise. *)
Definition ensure_wgs84 (declared : option crs) (xy : R * R) : R * R :=
  match declared with
  | None => xy
  | Some EPSG4326 => xy
  | Some EPSG3857 => to_wgs xy
  end.

Definition row_of (declared : option crs) (f : feature) : list point_row :=
  match f_geometry f with
  | GPoint x y =>
      [ {| pt_xy := ensure_wgs84 declared (x, y);
           pt_props := f_props f;
           pt_text := f_text f |} ]
  | GOther => []
  end.

(** One iteration of the loop of [load_points]: the frame appended to
    [frames], if any. *)
Definition load_frame (f : input_file) : list frame :=
  match f with
  | Missing => []
  | Unreadable => []
  | Collection declared features =>
      match features with
      | [] => []                                              (* [g.empty] *)
      | _ =>
          match flat_map (row_of declared) features with
          | [] => []                              (* no point geometry left *)
          | rs =>
              [ {| columns :=
                     flat_map (fun f => map fst (f_props f) ++ f_text f)
                              features;
                   rows := rs |} ]
          end
      end
  end.

Definition load_points (in_files : list input_file) : frame :=
  let frames := flat_map load_frame in_files in
  {| columns := flat_map columns frames; rows := flat_map rows frames |}.

(** [pts.empty] *)
Definition empty (pts : frame) : bool :=
  match rows pts with [] => true | _ => false end.

(** [pts.total_bounds]: (minx, miny, maxx, maxy) over all rows. *)
Definition total_bounds (pts : frame) : R * R * R * R :=
  match map pt_xy (rows pts) with
  | [] => (0, 0, 0, 0)
  | (x, y) :: rest =>
      (fold_left Rmin (map fst rest) x, fold_left Rmin (map snd rest) y,
       fold_left Rmax (map fst rest) x, fold_left Rmax (map snd rest) y)
  end.

(** ** Spatial aggregator *)

(** Directed edges of the closed ring of a polygon. *)
Definition edges (poly : polygon) : list ((R * R) * (R * R)) :=
  match poly with
  | [] => []
  | v0 :: rest => combine poly (rest ++ [v0])
  end.

(** Twice the signed area of the triangle [a], [b], [q]: positive when
    [q] is strictly to the left of the directed edge from [a] to [b]. *)
Definition orient (a b q : R * R) : R :=
  (fst b - fst a) * (snd q - snd a) - (snd b - snd a) * (fst q - fst a).

(** shapely's [within] for a point and a convex ring: the point is in the
    interior, that is strictly on one and the same side of every edge.  A
    point on the boundary is not within. *)
Definition within (q : R * R) (poly : polygon) : bool :=
  forallb (fun e => Rltb 0 (orient (fst e) (snd e) q)) (edges poly)
  || forallb (fun e => Rltb (orient (fst e) (snd e) q) 0) (edges poly).

(** [hex_gdf.reset_index(names="hex_id")] *)
Definition reset_index (hexes : list polygon) : list (Z * polygon) :=
  combine (range (Z.of_nat (List.length hexes))) hexes.

(** [gpd.sjoin(pts, hex_gdf, how="inner", predicate="within")]: one row
    per (point, hexagon) pair that satisfies the predicate. *)
Definition sjoin (pts : list point_row) (hex_gdf : list (Z * polygon))
  : list (point_row * Z) :=
  flat_map (fun p =>
    flat_map (fun h => if within (pt_xy p) (snd h) then [(p, fst h)] else [])
             hex_gdf)
    pts.

(** Columns that the join itself contributes. *)
Definition structural_columns : list string :=
  ["geometry"; "index_right"; "hex_id"]%string.

Definition joined_columns (pts : frame) : list string :=
  columns pts ++ structural_columns.

(** The number in the cell of column [name] in a row of [joined]; [None]
    when the cell holds none (NaN, a text).  The names of the attribute
    columns are taken to differ from the columns the join contributes;
    the geometry column holds no number in any row. *)
Definition joined_attr (name : string) (row : point_row * Z) : option R :=
  if (String.eqb name "hex_id" || String.eqb name "index_right")%bool
  then Some (IZR (snd row))
  else match find (fun kv => String.eqb (fst kv) name) (pt_props (fst row)) with
       | Some (_, v) => v
       | None => None
       end.

(** pandas' [sum]: NaN cells are skipped. *)
Definition nansum (cells : list (option R)) : R :=
  fold_right (fun c acc => match c with Some w => w + acc | None => acc end)
             0 cells.

(** Keys of [joined.groupby("hex_id")] (the order of the groups does not
    reach the output, the merge below is keyed). *)
Definition group_keys (joined : list (point_row * Z)) : list Z :=
  nodup Z.eq_dec (map snd joined).

Definition group (joined : list (point_row * Z)) (k : Z)
  : list (point_row * Z) :=
  filter (fun row => Z.eqb (snd row) k) joined.

Definition truthy (weight_field : option string) : option string :=
  match weight_field with
  | Some name => if String.eqb name "" then None else Some name
  | None => None
  end.

(** The weighted branch is taken when the option is set and names a
    column of [joined]. *)
Definition weighted (weight_field : option string) (pts : frame)
  : option string :=
  match truthy weight_field with
  | Some name =>
      if existsb (String.eqb name) (joined_columns pts) then Some name
      else None
  | None => None
  end.

(** The rows of [agg], one (hex_id, value) per group: the sum of the
    weight column over the group in the weighted branch, the size of the
    group otherwise. *)
Definition agg_rows (weight_field : option string) (pts : frame)
    (joined : list (point_row * Z)) : list (Z * R) :=
  match weighted weight_field pts with
  | Some name =>
      map (fun k => (k, nansum (map (joined_attr name) (group joined k))))
          (group_keys joined)
  | None =>
      map (fun k => (k, INR (List.length (group joined k)))) (group_keys joined)
  end.

(** The cell of column [name] in a row of [joined] holds a text, or a
    number. *)
Definition text_cell (name : string) (row : point_row * Z) : bool :=
  existsb (String.eqb name) (pt_text (fst row)).

Definition number_cell (name : string) (row : point_row * Z) : bool :=
  match joined_attr name row with Some _ => true | None => false end.

(** Some group of [joined] holds a text and a number in column [name]. *)
Definition mixed_group (name : string) (joined : list (point_row * Z))
  : bool :=
  existsb (fun row =>
             text_cell name row
             && existsb (number_cell name) (group joined (snd row)))
          joined.

(** [agg] with the values as numbers, as [main] needs them in the end
    ([sum] of the weighted branch followed by the [astype(float)] that
    [main] applies after the merge).  The weighted branch takes any
    column that passes the column test:
    - geometries cannot be added up, pandas raises [TypeError] (in [sum]
      when there is a group, in the [fillna] of the merged geometry
      column when there is none);
    - [sum] adds the cells of a group with [+], skipping nulls: a text
      and a number in one group raise [TypeError];
    - the texts of a group are joined, and the joined text fails the
      conversion to float: [ValueError]. *)
Definition aggregate (weight_field : option string) (pts : frame)
    (joined : list (point_row * Z)) : result (list (Z * R)) :=
  match weighted weight_field pts with
  | Some name =>
      if String.eqb name "geometry" then Raise TypeError
      else if mixed_group name joined then Raise TypeError
      else if existsb (text_cell name) joined then Raise ValueError
      else Ok (agg_rows weight_field pts joined)
  | None => Ok (agg_rows weight_field pts joined)
  end.

(** [hex_gdf.merge(agg, on="hex_id", how="left")]: every left row is kept,
    once per matching row of [agg], or once with a NaN value. *)
Definition merge_left (hex_gdf : list (Z * polygon)) (agg : list (Z * R))
  : list (Z * polygon * option R) :=
  flat_map (fun h =>
    match filter (fun a => Z.eqb (fst a) (fst h)) agg with
    | [] => [(fst h, snd h, None)]
    | ms => map (fun a => (fst h, snd h, Some (snd a))) ms
    end)
    hex_gdf.

(** [fillna({"value": 0})] *)
Definition fillna0 (v : option R) : R :=
  match v with Some x => x | None => 0 end.

(** ** Density calculator *)

(** [merc.geometry.area]: unsigned shoelace area of the ring. *)
Definition polygon_area (poly : polygon) : R :=
  Rabs (fold_right Rplus 0
          (map (fun e => fst (fst e) * snd (snd e) - fst (snd e) * snd (fst e))
               (edges poly))) / 2.

(** numpy float64 cells: a finite number, an infinity or NaN. *)
Inductive npfloat : Type :=
| Finite (x : R)
| PosInf
| NegInf
| NaN.

(** The least magnitude that float64 arithmetic rounds to an infinity:
    half a unit in the last place above the largest finite float64. *)
Definition FLOAT64_OVERFLOW : R := IZR (2 ^ 1024 - 2 ^ 970).

(** numpy's [/] on float64: a zero divisor gives an infinity or NaN, not
    an exception, and a quotient beyond the range of float64 overflows to
    the infinity of its sign.  Inside the range the quotient is exact. *)
Definition npdiv (v a : R) : npfloat :=
  if Req_dec_T a 0 then
    (if Req_dec_T v 0 then NaN else if Rlt_dec 0 v then PosInf else NegInf)
  else if Rle_dec FLOAT64_OVERFLOW (v / a) then PosInf
  else if Rle_dec (v / a) (- FLOAT64_OVERFLOW) then NegInf
  else Finite (v / a).

(** The [lambda r: ...] of the density column. *)
Definition density (value area_km2 : R) : npfloat :=
  if Rltb 0 area_km2 then npdiv value area_km2 else Finite 0.

(** ** Exporter and [main] *)

(** A row of the exported table.  [value] and [area_km2] are the float64
    numbers of the run as reals, hence finite. *)
Record hex_record : Type := {
  hex_id : Z;
  value : R;
  area_km2 : R;
  density_per_km2 : npfloat;
  geometry : polygon
}.

Definition annotate (row : Z * polygon * option R) : hex_record :=
  let '(id, geom, v) := row in
  let value := fillna0 v in
  let area_km2 := polygon_area (map to_merc geom) / 1000000 in
  {| hex_id := id;
     value := value;
     area_km2 := area_km2;
     density_per_km2 := density value area_km2;
     geometry := geom |}.

Inductive outcome : Type :=
| NoPointData                       (* "[ERROR] No point data found", return *)
| Crashed (e : pyerror)             (* uncaught exception, nothing written *)
| Wrote (features : list hex_record).  (* [export.to_file(out_path)] *)

Definition main (hex_m : Z) (inputs : list input_file)
    (weight_field : option string) : outcome :=
  let pts := load_points inputs in
  if empty pts then NoPointData
  else
    match make_hex_grid (total_bounds pts) hex_m with
    | Raise e => Crashed e
    | Ok hexes =>
        let hex_gdf := reset_index hexes in
        let joined := sjoin (rows pts) hex_gdf in
        match aggregate weight_field pts joined with
        | Raise e => Crashed e
        | Ok agg => Wrote (map annotate (merge_left hex_gdf agg))
        end
    end.

(** ** Notions used to state the properties *)

(** The table that [main] exports for the loaded points and the generated
    hexagons when the aggregation raises nothing: join, rows of [agg],
    merge, density and the exported columns. *)
Definition hotspots (weight_field : option string) (pts : frame)
    (hexes : list polygon) : list hex_record :=
  let hex_gdf := reset_index hexes in
  let joined := sjoin (rows pts) hex_gdf in
  let agg := agg_rows weight_field pts joined in
  map annotate (merge_left hex_gdf agg).

(** The exception, if any, that the weight column makes the aggregation
    raise. *)
Definition weight_error (weight_field : option string) (pts : frame)
    (joined : list (point_row * Z)) : option pyerror :=
  match aggregate weight_field pts joined with
  | Raise e => Some e
  | Ok _ => None
  end.

(** No loaded point holds a text under the weight field. *)
Definition numeric_weights (weight_field : option string) (pts : frame)
  : Prop :=
  forall name p,
    weight_field = Some name -> In p (rows pts) -> ~ In name (pt_text p).

(** The two coordinates of [to_wgs]. *)
Definition lon_of (x : R) : R := x / EARTH_RADIUS * 180 / PI.
Definition lat_of (y : R) : R :=
  (2 * atan (exp (y / EARTH_RADIUS)) - PI / 2) * 180 / PI.

(** Degrees of longitude per planar metre. *)
Definition kappa : R := / EARTH_RADIUS * 180 / PI.

(** The six edge orientations of the hexagon centred at ([cx], [cy]) for
    the point with planar coordinates ([x], [y]), up to the factor
    [kappa]. *)
Definition edge_tests (cx cy Rr x y : R) : list R :=
  let h := Rr * sqrt 3 / 2 in
  let w := lat_of y - lat_of cy in
  let A := lat_of (cy + h) - lat_of cy in
  let B := lat_of cy - lat_of (cy - h) in
  let u := x - cx in
  [ A * (Rr - u) - Rr / 2 * w;
    Rr * (A - w);
    A * (u + Rr) - Rr / 2 * w;
    B * (u + Rr) + Rr / 2 * w;
    Rr * (w + B);
    B * (Rr - u) + Rr / 2 * w ].

(** The planar layout computed by [make_hex_grid] before its loops. *)
Definition padded_min (bounds : R * R * R * R) (hex_radius_m : Z) : R * R :=
  let '(minx, miny, _, _) := bounds in
  (fst (to_merc (minx, miny)) - 2 * IZR hex_radius_m,
   snd (to_merc (minx, miny)) - 2 * IZR hex_radius_m).

Definition padded_max (bounds : R * R * R * R) (hex_radius_m : Z) : R * R :=
  let '(_, _, maxx, maxy) := bounds in
  (fst (to_merc (maxx, maxy)) + 2 * IZR hex_radius_m,
   snd (to_merc (maxx, maxy)) + 2 * IZR hex_radius_m).

Definition spacing_dx (hex_radius_m : Z) : R := IZR hex_radius_m * sqrt 3.
Definition spacing_dy (hex_radius_m : Z) : R := IZR hex_radius_m * 1.5.

Definition n_cols (bounds : R * R * R * R) (hex_radius_m : Z) : Z :=
  (Zceil ((fst (padded_max bounds hex_radius_m)
           - fst (padded_min bounds hex_radius_m))
          / spacing_dx hex_radius_m) + 1)%Z.

Definition n_rows (bounds : R * R * R * R) (hex_radius_m : Z) : Z :=
  (Zceil ((snd (padded_max bounds hex_radius_m)
           - snd (padded_min bounds hex_radius_m))
          / spacing_dy hex_radius_m) + 1)%Z.

Definition layout_cells (bounds : R * R * R * R) (hex_radius_m : Z)
  : list polygon :=
  hex_cells (fst (padded_min bounds hex_radius_m))
            (snd (padded_min bounds hex_radius_m))
            (spacing_dx hex_radius_m) (spacing_dy hex_radius_m)
            (IZR hex_radius_m)
            (n_rows bounds hex_radius_m) (n_cols bounds hex_radius_m).

(** The value computed for one group of joined rows. *)
Definition cell_value (weight_field : option string) (pts : frame)
    (rows_of_cell : list (point_row * Z)) : R :=
  match weighted weight_field pts with
  | Some name => nansum (map (joined_attr name) rows_of_cell)
  | None => INR (List.length rows_of_cell)
  end.

(** The points of a frame that are within a polygon. *)
Definition points_within (pts : list point_row) (poly : polygon)
  : list point_row :=
  filter (fun p => within (pt_xy p) poly) pts.

(** The record exported for one indexed hexagon, written directly in
    terms of the points within it. *)
Definition record_of (weight_field : option string) (pts : frame)
    (h : Z * polygon) : hex_record :=
  annotate (fst h, snd h,
            Some (cell_value weight_field pts
                    (map (fun p => (p, fst h))
                         (points_within (rows pts) (snd h))))).

(** A concrete run: one WGS84 collection of three points, given by their
    planar coordinates (0, 2000), (1200, 0) and (1200, 2000) in metres,
    that is about (0, 0.017966), (0.010780, 0) and (0.010780, 0.017966)
    in degrees; [a], [b] and [c] are their properties. *)
Definition scenario_features (a b c : list (string * option R))
  : list feature :=
  [ {| f_geometry := GPoint (lon_of 0) (lat_of 2000);
       f_props := a; f_text := [] |};
    {| f_geometry := GPoint (lon_of 1200) (lat_of 0);
       f_props := b; f_text := [] |};
    {| f_geometry := GPoint (lon_of 1200) (lat_of 2000);
       f_props := c; f_text := [] |} ].

Definition scenario_inputs (a b c : list (string * option R))
  : list input_file :=
  [ Collection (Some EPSG4326) (scenario_features a b c) ].

Definition scenario_rows (a b c : list (string * option R))
  : list point_row :=
  [ {| pt_xy := (lon_of 0, lat_of 2000);
       pt_props := a; pt_text := [] |};
    {| pt_xy := (lon_of 1200, lat_of 0);
       pt_props := b; pt_text := [] |};
    {| pt_xy := (lon_of 1200, lat_of 2000);
       pt_props := c; pt_text := [] |} ].

(** The grid of that run at radius 2000: 5 rows of 4 cells. *)
Definition scenario_hexes : list polygon :=
  hex_cells (-4000) (-4000) (spacing_dx 2000) (spacing_dy 2000) 2000 5 4.

Definition scenario_bbox : R * R * R * R :=
  (lon_of 0, lat_of 0, lon_of 1200, lat_of 2000).


(** A run at radius 1: two points one metre apart on a meridian, the
    northern one with the weight 1e308 under "w". *)
Definition heavy_inputs : list input_file :=
  [ Collection (Some EPSG4326)
      [ {| f_geometry := GPoint (lon_of 0) (lat_of 0); f_props := []; f_text := [] |};
        {| f_geometry := GPoint (lon_of 0) (lat_of 1);
           f_props := [("w"%string, Some 1e308)];
           f_text := [] |} ] ].

(** Hexagon 9 of the grid of that run: row 2, column 1. *)
Definition heavy_cell : polygon := hexagon (-2 + sqrt 3) 1 1.

Definition total_value (features : list hex_record) : R :=
  fold_right Rplus 0 (map value features).

(** The point rows one input contributes. *)
Definition usable_points (f : input_file) : list point_row :=
  match f with
  | Collection declared features => flat_map (row_of declared) features
  | Missing | Unreadable => []
  end.

(** [q] lies on the closed segment from [a] to [b]. *)
Definition on_segment (a b q : R * R) : Prop :=
  exists t, 0 <= t <= 1 /\
    q = (fst a + t * (fst b - fst a), snd a + t * (snd b - snd a)).

Definition on_boundary (q : R * R) (poly : polygon) : Prop :=
  exists e, In e (edges poly) /\ on_segment (fst e) (snd e) q.

(** The weight a point row carries under [name]; a missing or null
    property counts as 0 in the column sum. *)
Definition point_weight (name : string) (p : point_row) : R :=
  match find (fun kv => String.eqb (fst kv) name) (pt_props p) with
  | Some (_, Some w) => w
  | _ => 0
  end.

(** The files that [load_points] passes over: missing, unreadable, empty
    or without a single Point feature. *)
Definition skipped (f : input_file) : Prop :=
  match f with
  | Missing | Unreadable => True
  | Collection _ features => Forall (fun ft => f_geometry ft = GOther) features
  end.

(** The number of Point features of an input. *)
Definition point_count (f : input_file) : nat :=
  match f with
  | Missing | Unreadable => 0%nat
  | Collection _ features =>
      List.length
        (filter (fun ft => match f_geometry ft with
                           | GPoint _ _ => true
                           | GOther => false
                           end) features)
  end.

(** A bounding box in degrees whose corners are ordered and whose
    latitudes are strictly between the poles. *)
Definition proper_bounds (bounds : R * R * R * R) : Prop :=
  let '(minx, miny, maxx, maxy) := bounds in
  minx <= maxx /\ -90 < miny /\ miny <= maxy /\ maxy < 90.

(** A point of the closed box. *)
Definition in_bounds (bounds : R * R * R * R) (q : R * R) : Prop :=
  let '(minx, miny, maxx, maxy) := bounds in
  minx <= fst q <= maxx /\ miny <= snd q <= maxy.

(** A ring that is strictly convex and counter-clockwise: each vertex is
    on the two edges it ends and strictly left of every other edge. *)
Definition strictly_convex_ccw (g : polygon) : Prop :=
  forall (i : nat) (v : R * R),
    nth_error g i = Some v ->
    Forall2 (fun o incident => if incident : bool then o = 0 else 0 < o)
      (map (fun e => orient (fst e) (snd e) v) (edges g))
      (map (fun j => (Nat.eqb j i || Nat.eqb (S j mod List.length g) i)%bool)
           (seq 0 (List.length g))).

(** What one row of the join adds to the value of its hexagon: 1 when
    points are counted, its weight (0 for a missing one) when the weighted
    branch is taken. *)
Definition row_contribution (weight_field : option string) (pts : frame)
    (row : point_row * Z) : R :=
  match weighted weight_field pts with
  | Some name => match joined_attr name row with Some w => w | None => 0 end
  | None => 1
  end.

Definition Rsum (l : list R) : R := fold_right Rplus 0 l.

(** The angle behind [lat_of] and its derivative. *)
Definition gd (y : R) : R := atan (exp (y / EARTH_RADIUS)).

Definition gd' (y : R) : R :=
  / (1 + exp (y / EARTH_RADIUS) ^ 2)
  * (exp (y / EARTH_RADIUS) * (1 / EARTH_RADIUS)).

(** Moving data east by [d] degrees of longitude: a position, a loaded
    point, the frame of all points, a bounding box, an exported record
    (only its ring moves) and the outcome of a run. *)
Definition shift_east (d : R) (q : R * R) : R * R := (fst q + d, snd q).

Definition shift_row (d : R) (p : point_row) : point_row :=
  {| pt_xy := shift_east d (pt_xy p);
     pt_props := pt_props p;
     pt_text := pt_text p |}.

Definition shift_frame (d : R) (pts : frame) : frame :=
  {| columns := columns pts; rows := map (shift_row d) (rows pts) |}.

Definition shift_bounds (d : R) (bounds : R * R * R * R) : R * R * R * R :=
  let '(minx, miny, maxx, maxy) := bounds in (minx + d, miny, maxx + d, maxy).

Definition shift_record (d : R) (r : hex_record) : hex_record :=
  {| hex_id := hex_id r;
     value := value r;
     area_km2 := area_km2 r;
     density_per_km2 := density_per_km2 r;
     geometry := map (shift_east d) (geometry r) |}.

Definition shift_outcome (d : R) (o : outcome) : outcome :=
  match o with
  | Wrote features => Wrote (map (shift_record d) features)
  | _ => o
  end.

(** * Properties *)

(** ** Real-number facts used throughout *)

Lemma Rltb_true (x y : R) : Rltb x y = true <-> x < y.
Proof. unfold Rltb; destruct (Rlt_dec x y); split; intros; try easy. Qed.

Lemma Rltb_false (x y : R) : Rltb x y = false <-> y <= x.
Proof.
  unfold Rltb; destruct (Rlt_dec x y); split; intros; try easy; lra.
Qed.

Lemma sqrt3_sq : sqrt 3 * sqrt 3 = 3.
Proof. apply sqrt_sqrt; lra. Qed.

Lemma sqrt3_bounds : 1732 / 1000 < sqrt 3 < 1733 / 1000.
Proof.
  pose proof sqrt3_sq as Hs.
  pose proof (sqrt_pos 3) as Hp.
  split; nra.
Qed.

Lemma sqrt3_pos : 0 < sqrt 3.
Proof. pose proof sqrt3_bounds; lra. Qed.

Lemma EARTH_RADIUS_pos : 0 < EARTH_RADIUS.
Proof. unfold EARTH_RADIUS; lra. Qed.

(** The six directions of the vertex loop. *)
Lemma hex_angle_0 : cos (PI / 3 * INR 0) = 1 /\ sin (PI / 3 * INR 0) = 0.
Proof. simpl; rewrite Rmult_0_r; split; [apply cos_0 | apply sin_0]. Qed.

Lemma hex_angle_1 :
  cos (PI / 3 * INR 1) = 1 / 2 /\ sin (PI / 3 * INR 1) = sqrt 3 / 2.
Proof. simpl; rewrite Rmult_1_r; split; [apply cos_PI3 | apply sin_PI3]. Qed.

Lemma hex_angle_2 :
  cos (PI / 3 * INR 2) = - 1 / 2 /\ sin (PI / 3 * INR 2) = sqrt 3 / 2.
Proof.
  replace (PI / 3 * INR 2) with (2 * (PI / 3)) by (simpl; lra).
  split; [apply cos_2PI3 | apply sin_2PI3].
Qed.

Lemma hex_angle_3 : cos (PI / 3 * INR 3) = - 1 /\ sin (PI / 3 * INR 3) = 0.
Proof.
  replace (PI / 3 * INR 3) with PI by (simpl; lra).
  split; [apply cos_PI | apply sin_PI].
Qed.

Lemma hex_angle_4 :
  cos (PI / 3 * INR 4) = - 1 / 2 /\ sin (PI / 3 * INR 4) = - sqrt 3 / 2.
Proof.
  replace (PI / 3 * INR 4) with (PI / 3 + PI) by (simpl; lra).
  rewrite neg_cos, neg_sin, cos_PI3, sin_PI3; split; lra.
Qed.

Lemma hex_angle_5 :
  cos (PI / 3 * INR 5) = 1 / 2 /\ sin (PI / 3 * INR 5) = - sqrt 3 / 2.
Proof.
  replace (PI / 3 * INR 5) with (2 * (PI / 3) + PI) by (simpl; lra).
  rewrite neg_cos, neg_sin, cos_2PI3, sin_2PI3; split; lra.
Qed.

(** ** The projection pair *)

Lemma to_wgs_eq (x y : R) : to_wgs (x, y) = (lon_of x, lat_of y).
Proof. reflexivity. Qed.

Lemma lon_of_lt (x1 x2 : R) : x1 < x2 -> lon_of x1 < lon_of x2.
Proof.
  intros H. unfold lon_of.
  pose proof PI_RGT_0 as Hpi. pose proof EARTH_RADIUS_pos as Ha.
  assert (Hk : 0 < / EARTH_RADIUS * 180 / PI).
  { apply Rdiv_lt_0_compat; [|exact Hpi].
    apply Rmult_lt_0_compat; [apply Rinv_0_lt_compat; exact Ha | lra]. }
  replace (x1 / EARTH_RADIUS * 180 / PI) with (x1 * (/ EARTH_RADIUS * 180 / PI))
    by (unfold Rdiv; ring).
  replace (x2 / EARTH_RADIUS * 180 / PI) with (x2 * (/ EARTH_RADIUS * 180 / PI))
    by (unfold Rdiv; ring).
  apply Rmult_lt_compat_r; assumption.
Qed.

Lemma lat_of_lt (y1 y2 : R) : y1 < y2 -> lat_of y1 < lat_of y2.
Proof.
  intros H. unfold lat_of.
  pose proof PI_RGT_0 as Hpi. pose proof EARTH_RADIUS_pos as Ha.
  assert (He : atan (exp (y1 / EARTH_RADIUS)) < atan (exp (y2 / EARTH_RADIUS))).
  { apply atan_increasing, exp_increasing.
    unfold Rdiv. apply Rmult_lt_compat_r;
      [apply Rinv_0_lt_compat; exact Ha | exact H]. }
  unfold Rdiv. apply Rmult_lt_compat_r; [apply Rinv_0_lt_compat; exact Hpi|].
  lra.
Qed.

Lemma to_merc_to_wgs (p : R * R) : to_merc (to_wgs p) = p.
Proof.
  destruct p as [x y]. unfold to_merc, to_wgs.
  pose proof PI_RGT_0 as Hpi. pose proof EARTH_RADIUS_pos as Ha.
  f_equal.
  - field. split; lra.
  - replace (PI / 4 +
             (2 * atan (exp (y / EARTH_RADIUS)) - PI / 2) * 180 / PI * PI / 180 / 2)
      with (atan (exp (y / EARTH_RADIUS))) by (field; lra).
    rewrite tan_atan, ln_exp. field. lra.
Qed.

Lemma to_wgs_origin : to_wgs (0, 0) = (0, 0).
Proof.
  unfold to_wgs. pose proof PI_RGT_0 as Hpi.
  f_equal.
  - unfold Rdiv; ring.
  - replace (0 / EARTH_RADIUS) with 0 by (unfold Rdiv; ring).
    rewrite exp_0, atan_1. field. lra.
Qed.

(** The ring generated for a cell, vertex by vertex. *)
Lemma hexagon_vertices (cx cy Rr : R) :
  hexagon cx cy Rr =
  [ to_wgs (cx + Rr, cy);
    to_wgs (cx + Rr / 2, cy + Rr * sqrt 3 / 2);
    to_wgs (cx - Rr / 2, cy + Rr * sqrt 3 / 2);
    to_wgs (cx - Rr, cy);
    to_wgs (cx - Rr / 2, cy - Rr * sqrt 3 / 2);
    to_wgs (cx + Rr / 2, cy - Rr * sqrt 3 / 2) ].
Proof.
  unfold hexagon, hex_vertex_m.
  cbn [seq map].
  destruct hex_angle_0 as [-> ->]. destruct hex_angle_1 as [-> ->].
  destruct hex_angle_2 as [-> ->]. destruct hex_angle_3 as [-> ->].
  destruct hex_angle_4 as [-> ->]. destruct hex_angle_5 as [-> ->].
  repeat (f_equal; try lra).
Qed.

(** ** Containment in a generated hexagon *)

Lemma kappa_pos : 0 < kappa.
Proof.
  unfold kappa. pose proof PI_RGT_0. pose proof EARTH_RADIUS_pos.
  apply Rdiv_lt_0_compat; [|assumption].
  apply Rmult_lt_0_compat; [apply Rinv_0_lt_compat; assumption | lra].
Qed.

Lemma to_wgs_kappa (x y : R) : to_wgs (x, y) = (x * kappa, lat_of y).
Proof. unfold to_wgs, lat_of, kappa, Rdiv. f_equal. ring. Qed.

Lemma orient_wgs (ax ay bx by' x y : R) :
  orient (to_wgs (ax, ay)) (to_wgs (bx, by')) (to_wgs (x, y)) =
  kappa * ((bx - ax) * (lat_of y - lat_of ay)
           - (lat_of by' - lat_of ay) * (x - ax)).
Proof. rewrite !to_wgs_kappa. unfold orient. cbn [fst snd]. ring. Qed.

Lemma Rltb_scale_pos (e : R) : Rltb 0 (kappa * e) = Rltb 0 e.
Proof.
  pose proof kappa_pos as Hk.
  destruct (Rltb 0 e) eqn:He.
  - apply Rltb_true in He. apply Rltb_true. apply Rmult_lt_0_compat; assumption.
  - apply Rltb_false in He. apply Rltb_false. nra.
Qed.

Lemma Rltb_scale_neg (e : R) : Rltb (kappa * e) 0 = Rltb e 0.
Proof.
  pose proof kappa_pos as Hk.
  destruct (Rltb e 0) eqn:He.
  - apply Rltb_true in He. apply Rltb_true. nra.
  - apply Rltb_false in He. apply Rltb_false.
    apply Rmult_le_pos; lra.
Qed.

Lemma hexagon_orientations (cx cy Rr x y : R) :
  map (fun e => orient (fst e) (snd e) (to_wgs (x, y)))
      (edges (hexagon cx cy Rr)) =
  map (Rmult kappa) (edge_tests cx cy Rr x y).
Proof.
  rewrite hexagon_vertices. unfold edges, edge_tests.
  cbn [combine app map fst snd]. rewrite !orient_wgs.
  repeat (f_equal; try field).
Qed.

Lemma forallb_map {A B : Type} (f : A -> B) (p : B -> bool) (l : list A) :
  forallb p (map f l) = forallb (fun a => p (f a)) l.
Proof.
  induction l as [|a l IH]; [reflexivity|]. cbn. now rewrite IH.
Qed.

Lemma forallb_pointwise {A : Type} (p p' : A -> bool) (l : list A) :
  (forall a, p a = p' a) -> forallb p l = forallb p' l.
Proof.
  intros H. induction l as [|a l IH]; [reflexivity|]. cbn. now rewrite H, IH.
Qed.

Lemma within_hexagon_tests (cx cy Rr x y : R) :
  within (to_wgs (x, y)) (hexagon cx cy Rr) =
  (forallb (Rltb 0) (edge_tests cx cy Rr x y)
   || forallb (fun e => Rltb e 0) (edge_tests cx cy Rr x y))%bool.
Proof.
  unfold within.
  rewrite <- (forallb_map (fun e => orient (fst e) (snd e) (to_wgs (x, y)))
                          (Rltb 0)).
  rewrite <- (forallb_map (fun e => orient (fst e) (snd e) (to_wgs (x, y)))
                          (fun o => Rltb o 0)).
  rewrite hexagon_orientations, !forallb_map.
  f_equal; apply forallb_pointwise; intros e;
    [apply Rltb_scale_pos | apply Rltb_scale_neg].
Qed.

Lemma lat_of_le (y1 y2 : R) : y1 <= y2 -> lat_of y1 <= lat_of y2.
Proof.
  intros [H | ->]; [left; apply lat_of_lt; exact H | right; reflexivity].
Qed.

Lemma half_height_pos (Rr : R) : 0 < Rr -> 0 < Rr * sqrt 3 / 2.
Proof. intros H. pose proof sqrt3_pos. nra. Qed.

Ltac hex_facts cx cy Rr y :=
  let Hh := fresh "Hh" in
  let HA := fresh "HA" in
  let HB := fresh "HB" in
  assert (Hh : 0 < Rr * sqrt 3 / 2) by (apply half_height_pos; assumption);
  assert (HA : lat_of cy < lat_of (cy + Rr * sqrt 3 / 2))
    by (apply lat_of_lt; lra);
  assert (HB : lat_of (cy - Rr * sqrt 3 / 2) < lat_of cy)
    by (apply lat_of_lt; lra).

Ltac bool_to_prop :=
  cbn [forallb edge_tests];
  repeat rewrite ?andb_true_iff, ?andb_false_iff, ?Rltb_true, ?Rltb_false.

Section PositiveRadius.

(** One cell: its centre and a positive circumradius. *)
Variables cx cy Rr : R.
Hypothesis HR : 0 < Rr.

(** For a positive radius the ring is never traversed clockwise. *)
Lemma hexagon_not_clockwise (x y : R) :
  forallb (fun e => Rltb e 0) (edge_tests cx cy Rr x y) = false.
Proof.
  hex_facts cx cy Rr y.
  apply not_true_is_false. intros Hall.
  cbn [forallb edge_tests] in Hall.
  repeat rewrite ?andb_true_iff, ?Rltb_true in Hall.
  destruct Hall as (_ & H2 & _ & _ & H5 & _). nra.
Qed.

Lemma within_hexagon_pos (x y : R) :
  within (to_wgs (x, y)) (hexagon cx cy Rr) =
  forallb (Rltb 0) (edge_tests cx cy Rr x y).
Proof.
  rewrite within_hexagon_tests, hexagon_not_clockwise.
  apply orb_false_r.
Qed.

(** A point on the horizontal line through the centre, strictly between
    the two side vertices, is inside. *)
Lemma within_center_line (x : R) :
  cx - Rr < x < cx + Rr ->
  within (to_wgs (x, cy)) (hexagon cx cy Rr) = true.
Proof.
  intros Hx. rewrite within_hexagon_pos.
  hex_facts cx cy Rr cy. bool_to_prop.
  repeat split; try exact I; nra.
Qed.

(** A point of the central band of half-width R/2, strictly between the
    top and the bottom edge, is inside. *)
Lemma within_core (x y : R) :
  cx - Rr / 2 <= x <= cx + Rr / 2 ->
  cy - Rr * sqrt 3 / 2 < y < cy + Rr * sqrt 3 / 2 ->
  within (to_wgs (x, y)) (hexagon cx cy Rr) = true.
Proof.
  intros Hx Hy. rewrite within_hexagon_pos.
  hex_facts cx cy Rr y.
  assert (Hw1 : lat_of y < lat_of (cy + Rr * sqrt 3 / 2))
    by (apply lat_of_lt; lra).
  assert (Hw2 : lat_of (cy - Rr * sqrt 3 / 2) < lat_of y)
    by (apply lat_of_lt; lra).
  bool_to_prop.
  repeat split; try exact I; nra.
Qed.

(** A point at or beyond the top or the bottom edge is outside. *)
Lemma outside_far_y (x y : R) :
  cy + Rr * sqrt 3 / 2 <= y \/ y <= cy - Rr * sqrt 3 / 2 ->
  within (to_wgs (x, y)) (hexagon cx cy Rr) = false.
Proof.
  intros Hy. rewrite within_hexagon_pos.
  hex_facts cx cy Rr y. apply not_true_is_false. intros Hall.
  cbn [forallb edge_tests] in Hall.
  repeat rewrite ?andb_true_iff, ?Rltb_true in Hall.
  destruct Hall as (_ & H2 & _ & _ & H5 & _).
  destruct Hy as [Hy | Hy]; apply lat_of_le in Hy; nra.
Qed.

(** A point at least one radius left or right of the centre is outside. *)
Lemma outside_far_x (x y : R) :
  x <= cx - Rr \/ cx + Rr <= x ->
  within (to_wgs (x, y)) (hexagon cx cy Rr) = false.
Proof.
  intros Hx. rewrite within_hexagon_pos.
  hex_facts cx cy Rr y. apply not_true_is_false. intros Hall.
  cbn [forallb edge_tests] in Hall.
  repeat rewrite ?andb_true_iff, ?Rltb_true in Hall.
  destruct Hall as (H1 & H2 & H3 & H4 & H5 & H6 & _).
  destruct (Rle_or_lt 0 (lat_of y - lat_of cy)) as [Hw | Hw];
    destruct Hx as [Hx | Hx]; nra.
Qed.

(** The generated ring is strictly convex and counter-clockwise: every
    vertex lies on the two edges it ends and strictly to the left of the
    four others, so the interior is the set of points strictly to the
    left of all six edges. *)
Lemma hexagon_strictly_convex (i : nat) :
  (i < 6)%nat ->
  Forall2 (fun o incident => if incident : bool then o = 0 else 0 < o)
    (map (fun e => orient (fst e) (snd e) (to_wgs (hex_vertex_m cx cy Rr i)))
         (edges (hexagon cx cy Rr)))
    (map (fun j => (Nat.eqb j i || Nat.eqb (S j mod 6) i)%bool) (seq 0 6)).
Proof.
  intros Hi. pose proof kappa_pos as Hk.
  hex_facts cx cy Rr cy.
  destruct i as [|[|[|[|[|[|i]]]]]]; [| | | | | |lia].
  all: cbv beta zeta delta [hex_vertex_m];
    rewrite ?(proj1 hex_angle_0), ?(proj2 hex_angle_0),
            ?(proj1 hex_angle_1), ?(proj2 hex_angle_1),
            ?(proj1 hex_angle_2), ?(proj2 hex_angle_2),
            ?(proj1 hex_angle_3), ?(proj2 hex_angle_3),
            ?(proj1 hex_angle_4), ?(proj2 hex_angle_4),
            ?(proj1 hex_angle_5), ?(proj2 hex_angle_5);
    rewrite hexagon_orientations; unfold edge_tests;
    match goal with
    | |- Forall2 _ _ ?l => let l' := eval vm_compute in l in change l with l'
    end;
    cbn [map fst snd];
    repeat (apply Forall2_cons); try apply Forall2_nil.
  all: repeat match goal with
       | |- context [lat_of ?y] =>
           first [ progress replace y with cy by lra
                 | progress replace y with (cy + Rr * sqrt 3 / 2) by lra
                 | progress replace y with (cy - Rr * sqrt 3 / 2) by lra ]
       end.
  all: first [ apply Rmult_lt_0_compat; [exact Hk | nra]
             | apply Rmult_eq_0_compat_l; field ].
Qed.

End PositiveRadius.

(** Two neighbouring cells of one row overlap: the point half-way between
    their centres is strictly inside both, whatever the positive radius. *)
Lemma neighbouring_cells_overlap (cx cy Rr : R) :
  0 < Rr ->
  let q := to_wgs (cx + Rr * sqrt 3 / 2, cy) in
  within q (hexagon cx cy Rr) = true /\
  within q (hexagon (cx + Rr * sqrt 3) cy Rr) = true.
Proof.
  intros HR q. pose proof sqrt3_bounds as Hs.
  split; apply within_center_line; try assumption; split; nra.
Qed.

(** ** Shape of the generated grid *)

Lemma range_length (n : Z) : List.length (range n) = Z.to_nat n.
Proof. unfold range. now rewrite length_map, length_seq. Qed.

Lemma range_nth_error (n : Z) (i : nat) :
  (i < Z.to_nat n)%nat -> nth_error (range n) i = Some (Z.of_nat i).
Proof.
  intros Hi. unfold range.
  rewrite nth_error_map, nth_error_seq.
  apply Nat.ltb_lt in Hi. now rewrite Hi.
Qed.

Lemma flat_map_length_const {A B : Type} (f : A -> list B) (l : list A)
    (n : nat) :
  (forall a, In a l -> List.length (f a) = n) ->
  List.length (flat_map f l) = (List.length l * n)%nat.
Proof.
  induction l as [|a l IH]; intros Hlen; [reflexivity|].
  cbn [flat_map]. rewrite length_app.
  rewrite Hlen by (left; reflexivity).
  rewrite IH by (intros; apply Hlen; right; assumption).
  reflexivity.
Qed.

Lemma flat_map_nth_error_const {A B : Type} (f : A -> list B) (l : list A)
    (n i j : nat) (a : A) :
  (forall a, In a l -> List.length (f a) = n) ->
  nth_error l i = Some a -> (j < n)%nat ->
  nth_error (flat_map f l) (i * n + j) = nth_error (f a) j.
Proof.
  revert i. induction l as [|b l IH]; intros i Hlen Hi Hj.
  - destruct i; discriminate.
  - cbn [flat_map]. destruct i as [|i].
    + injection Hi as ->. cbn [Nat.mul Nat.add].
      apply nth_error_app1. rewrite Hlen by (left; reflexivity). exact Hj.
    + cbn [nth_error] in Hi.
      assert (Hb : List.length (f b) = n) by (apply Hlen; left; reflexivity).
      rewrite nth_error_app2 by (rewrite Hb; lia).
      rewrite Hb.
      replace (S i * n + j - n)%nat with (i * n + j)%nat by lia.
      apply IH; [intros; apply Hlen; right; assumption | exact Hi | exact Hj].
Qed.

Lemma hex_cells_length (minx_m miny_m dx dy Rr : R) (nrows ncols : Z) :
  List.length (hex_cells minx_m miny_m dx dy Rr nrows ncols) =
  (Z.to_nat nrows * Z.to_nat ncols)%nat.
Proof.
  unfold hex_cells.
  rewrite flat_map_length_const with (n := Z.to_nat ncols).
  - now rewrite range_length.
  - intros r _. now rewrite length_map, range_length.
Qed.

Lemma hex_cells_nth_error (minx_m miny_m dx dy Rr : R) (nrows ncols r c : Z) :
  (0 <= r < nrows)%Z -> (0 <= c < ncols)%Z ->
  nth_error (hex_cells minx_m miny_m dx dy Rr nrows ncols)
            (Z.to_nat (r * ncols + c)) =
  Some (hexagon (cell_cx minx_m dx r c) (cell_cy miny_m dy r) Rr).
Proof.
  intros Hr Hc. unfold hex_cells.
  replace (Z.to_nat (r * ncols + c))
    with (Z.to_nat r * Z.to_nat ncols + Z.to_nat c)%nat by nia.
  rewrite flat_map_nth_error_const with (a := r).
  - rewrite nth_error_map, range_nth_error by lia.
    cbn. now rewrite Z2Nat.id by lia.
  - intros a _. now rewrite length_map, range_length.
  - rewrite range_nth_error by lia. now rewrite Z2Nat.id by lia.
  - lia.
Qed.

Lemma make_hex_grid_nonzero (bounds : R * R * R * R) (hex_radius_m : Z) :
  hex_radius_m <> 0%Z ->
  make_hex_grid bounds hex_radius_m = Ok (layout_cells bounds hex_radius_m).
Proof.
  intros HR. destruct bounds as [[[minx miny] maxx] maxy].
  unfold make_hex_grid, layout_cells, n_rows, n_cols, padded_min, padded_max,
    spacing_dx, spacing_dy.
  destruct (to_merc (minx, miny)) as [x0 y0] eqn:E0.
  destruct (to_merc (maxx, maxy)) as [x1 y1] eqn:E1.
  cbn [fst snd].
  assert (HRr : IZR hex_radius_m <> 0) by (apply not_0_IZR; exact HR).
  pose proof sqrt3_pos as Hs.
  unfold pydiv.
  destruct (Req_dec_T (IZR hex_radius_m * sqrt 3) 0) as [E | _].
  { exfalso. apply Rmult_integral in E. destruct E; lra. }
  cbn [bind].
  destruct (Req_dec_T (IZR hex_radius_m * 1.5) 0) as [E | _].
  { exfalso. lra. }
  cbn [bind]. rewrite mult_IZR.
  replace (IZR hex_radius_m * 2) with (2 * IZR hex_radius_m) by ring.
  reflexivity.
Qed.

Lemma make_hex_grid_zero (bounds : R * R * R * R) :
  make_hex_grid bounds 0 = Raise ZeroDivisionError.
Proof.
  destruct bounds as [[[minx miny] maxx] maxy].
  unfold make_hex_grid.
  destruct (to_merc (minx, miny)) as [x0 y0].
  destruct (to_merc (maxx, maxy)) as [x1 y1].
  unfold pydiv.
  destruct (Req_dec_T (0 * sqrt 3) 0) as [_ | E]; [reflexivity|].
  exfalso. apply E. ring.
Qed.

(** ** The join, the aggregation and the merge *)

Lemma range_NoDup (n : Z) : NoDup (range n).
Proof.
  unfold range. apply Injective_map_NoDup.
  - intros a b H. lia.
  - apply seq_NoDup.
Qed.

Lemma combine_map_fst {A B : Type} (l : list A) (l' : list B) :
  List.length l = List.length l' -> map fst (combine l l') = l.
Proof.
  revert l'. induction l as [|a l IH]; intros [|b l'] Hlen;
    try discriminate; [reflexivity|].
  cbn. f_equal. apply IH. now injection Hlen.
Qed.

Lemma combine_map_snd {A B : Type} (l : list A) (l' : list B) :
  List.length l = List.length l' -> map snd (combine l l') = l'.
Proof.
  revert l'. induction l as [|a l IH]; intros [|b l'] Hlen;
    try discriminate; [reflexivity|].
  cbn. f_equal. apply IH. now injection Hlen.
Qed.

Lemma reset_index_fst (hexes : list polygon) :
  map fst (reset_index hexes) = range (Z.of_nat (List.length hexes)).
Proof.
  unfold reset_index. apply combine_map_fst.
  now rewrite range_length, Nat2Z.id.
Qed.

Lemma reset_index_snd (hexes : list polygon) :
  map snd (reset_index hexes) = hexes.
Proof.
  unfold reset_index. apply combine_map_snd.
  now rewrite range_length, Nat2Z.id.
Qed.

Lemma reset_index_length (hexes : list polygon) :
  List.length (reset_index hexes) = List.length hexes.
Proof. now rewrite <- (length_map snd), reset_index_snd. Qed.

Lemma reset_index_nth_error (hexes : list polygon) (i : nat) (g : polygon) :
  nth_error hexes i = Some g ->
  nth_error (reset_index hexes) i = Some (Z.of_nat i, g).
Proof.
  intros Hg.
  assert (Hi : (i < List.length hexes)%nat)
    by (apply nth_error_Some; congruence).
  destruct (nth_error (reset_index hexes) i) as [[k g']|] eqn:E.
  - pose proof (map_nth_error fst _ _ E) as Hk.
    pose proof (map_nth_error snd _ _ E) as Hg'.
    rewrite reset_index_fst, range_nth_error in Hk
      by (rewrite Nat2Z.id; exact Hi).
    rewrite reset_index_snd, Hg in Hg'. cbn in *. congruence.
  - apply nth_error_None in E. rewrite reset_index_length in E. lia.
Qed.

Lemma filter_flat_map {A B : Type} (p : B -> bool) (f : A -> list B)
    (l : list A) :
  filter p (flat_map f l) = flat_map (fun a => filter p (f a)) l.
Proof.
  induction l as [|a l IH]; [reflexivity|].
  cbn [flat_map]. now rewrite filter_app, IH.
Qed.

(** The rows that one point contributes to the group of hexagon [k]. *)
Lemma join_rows_other (p : point_row) (k : Z) (hex_gdf : list (Z * polygon)) :
  ~ In k (map fst hex_gdf) ->
  filter (fun row : point_row * Z => Z.eqb (snd row) k)
    (flat_map (fun h => if within (pt_xy p) (snd h) then [(p, fst h)] else [])
              hex_gdf) = [].
Proof.
  induction hex_gdf as [|h l IH]; intros Hk; [reflexivity|].
  cbn [flat_map]. rewrite filter_app, IH by (cbn in Hk; tauto).
  rewrite app_nil_r.
  destruct (within (pt_xy p) (snd h)); [|reflexivity].
  cbn [filter snd].
  destruct (Z.eqb_spec (fst h) k) as [E|E]; [|reflexivity].
  exfalso. apply Hk. left. exact E.
Qed.

Lemma join_rows_one (p : point_row) (k : Z) (g : polygon)
    (hex_gdf : list (Z * polygon)) :
  NoDup (map fst hex_gdf) -> In (k, g) hex_gdf ->
  filter (fun row : point_row * Z => Z.eqb (snd row) k)
    (flat_map (fun h => if within (pt_xy p) (snd h) then [(p, fst h)] else [])
              hex_gdf) =
  if within (pt_xy p) g then [(p, k)] else [].
Proof.
  induction hex_gdf as [|h l IH]; intros Hnd Hin; [destruct Hin|].
  cbn [flat_map map] in *. rewrite filter_app.
  inversion Hnd as [|? ? Hnotin Hnd']; subst.
  destruct Hin as [-> | Hin].
  - cbn [fst snd] in *. rewrite join_rows_other by exact Hnotin.
    rewrite app_nil_r.
    destruct (within (pt_xy p) g); [|reflexivity].
    cbn [filter snd]. now rewrite Z.eqb_refl.
  - rewrite IH by assumption.
    assert (Hne : fst h <> k).
    { intros E. apply Hnotin. rewrite E.
      change k with (fst (k, g)). now apply in_map. }
    destruct (within (pt_xy p) (snd h)); [|reflexivity].
    cbn [filter snd].
    destruct (Z.eqb_spec (fst h) k) as [E|E]; [contradiction | reflexivity].
Qed.

Lemma group_sjoin (pts : list point_row) (hex_gdf : list (Z * polygon))
    (k : Z) (g : polygon) :
  NoDup (map fst hex_gdf) -> In (k, g) hex_gdf ->
  group (sjoin pts hex_gdf) k = map (fun p => (p, k)) (points_within pts g).
Proof.
  intros Hnd Hin. unfold group, sjoin, points_within.
  rewrite filter_flat_map.
  induction pts as [|p pts IH]; [reflexivity|].
  cbn [flat_map filter]. rewrite IH, join_rows_one with (g := g) by assumption.
  destruct (within (pt_xy p) g); reflexivity.
Qed.

Lemma group_nil_iff (joined : list (point_row * Z)) (k : Z) :
  group joined k = [] <-> ~ In k (group_keys joined).
Proof.
  unfold group, group_keys. rewrite nodup_In, in_map_iff. split.
  - intros Hnil [row [Hk Hin]].
    assert (Hf : In row (filter (fun row => Z.eqb (snd row) k) joined)).
    { apply filter_In. split; [exact Hin | now apply Z.eqb_eq]. }
    rewrite Hnil in Hf. exact Hf.
  - intros Hno.
    destruct (filter (fun row => Z.eqb (snd row) k) joined) as [|row l] eqn:E;
      [reflexivity|].
    exfalso. apply Hno. exists row.
    assert (Hf : In row (filter (fun row => Z.eqb (snd row) k) joined))
      by (rewrite E; left; reflexivity).
    apply filter_In in Hf. destruct Hf as [Hin Hk].
    split; [now apply Z.eqb_eq | exact Hin].
Qed.

Lemma filter_key_map {V : Type} (f : Z -> V) (keys : list Z) (k : Z) :
  NoDup keys ->
  filter (fun a : Z * V => Z.eqb (fst a) k) (map (fun k' => (k', f k')) keys) =
  if in_dec Z.eq_dec k keys then [(k, f k)] else [].
Proof.
  induction keys as [|k' keys IH]; intros Hnd; [reflexivity|].
  inversion Hnd as [|? ? Hnotin Hnd']; subst.
  cbn [map filter fst]. rewrite IH by assumption.
  destruct (Z.eqb_spec k' k) as [-> | Hne].
  - destruct (in_dec Z.eq_dec k (k :: keys)) as [_ | Hn];
      [|exfalso; apply Hn; left; reflexivity].
    destruct (in_dec Z.eq_dec k keys) as [Hin | _]; [contradiction | reflexivity].
  - destruct (in_dec Z.eq_dec k keys) as [Hin | Hn];
      destruct (in_dec Z.eq_dec k (k' :: keys)) as [Hin' | Hn'];
      try reflexivity.
    + exfalso. apply Hn'. right. exact Hin.
    + exfalso. destruct Hin' as [E | Hin']; [congruence | contradiction].
Qed.

Lemma agg_rows_lookup (weight_field : option string) (pts : frame)
    (joined : list (point_row * Z)) (k : Z) :
  filter (fun a : Z * R => Z.eqb (fst a) k)
         (agg_rows weight_field pts joined) =
  if in_dec Z.eq_dec k (group_keys joined)
  then [(k, cell_value weight_field pts (group joined k))] else [].
Proof.
  unfold agg_rows, cell_value.
  destruct (weighted weight_field pts) as [name|].
  - apply (filter_key_map
             (fun k' => nansum (map (joined_attr name) (group joined k')))).
    apply NoDup_nodup.
  - apply (filter_key_map (fun k' => INR (List.length (group joined k')))).
    apply NoDup_nodup.
Qed.

Lemma cell_value_nil (weight_field : option string) (pts : frame) :
  cell_value weight_field pts [] = 0.
Proof. unfold cell_value. destruct (weighted weight_field pts); reflexivity. Qed.

Lemma annotate_fillna (id : Z) (g : polygon) :
  annotate (id, g, None) = annotate (id, g, Some 0).
Proof. reflexivity. Qed.

Lemma merge_left_records (weight_field : option string) (pts : frame)
    (hex_gdf l : list (Z * polygon)) :
  NoDup (map fst hex_gdf) -> incl l hex_gdf ->
  map annotate
      (merge_left l (agg_rows weight_field pts (sjoin (rows pts) hex_gdf))) =
  map (record_of weight_field pts) l.
Proof.
  intros Hnd. unfold merge_left.
  induction l as [|h l IH]; intros Hall; [reflexivity|].
  cbn [flat_map]. rewrite map_app, IH
    by (intros h' Hh'; apply Hall; right; exact Hh').
  change (map (record_of weight_field pts) (h :: l))
    with ([record_of weight_field pts h] ++ map (record_of weight_field pts) l).
  f_equal. rewrite agg_rows_lookup. unfold record_of.
  assert (Hin : In (fst h, snd h) hex_gdf)
    by (rewrite <- surjective_pairing; apply Hall; left; reflexivity).
  rewrite <- (group_sjoin (rows pts) hex_gdf (fst h) (snd h) Hnd Hin).
  destruct (in_dec Z.eq_dec (fst h) (group_keys (sjoin (rows pts) hex_gdf)))
    as [Hk | Hk].
  - reflexivity.
  - apply group_nil_iff in Hk. rewrite Hk, cell_value_nil.
    cbn [map]. now rewrite annotate_fillna.
Qed.

Lemma hotspots_records (weight_field : option string) (pts : frame)
    (hexes : list polygon) :
  hotspots weight_field pts hexes =
  map (record_of weight_field pts) (reset_index hexes).
Proof.
  unfold hotspots. apply merge_left_records.
  - rewrite reset_index_fst. apply range_NoDup.
  - apply incl_refl.
Qed.

(** ** The weight column and the end of [main] *)


Lemma weighted_some (weight_field : option string) (pts : frame)
    (name : string) :
  weighted weight_field pts = Some name -> weight_field = Some name.
Proof.
  unfold weighted, truthy. destruct weight_field as [wf|]; [|discriminate].
  destruct (String.eqb wf ""); [discriminate|].
  destruct (existsb (String.eqb wf) (joined_columns pts)); [|discriminate].
  exact (fun H => H).
Qed.

Lemma aggregate_cases (weight_field : option string) (pts : frame)
    (joined : list (point_row * Z)) :
  aggregate weight_field pts joined =
  match weight_error weight_field pts joined with
  | Some e => Raise e
  | None => Ok (agg_rows weight_field pts joined)
  end.
Proof.
  unfold weight_error, aggregate.
  destruct (weighted weight_field pts) as [name|]; [|reflexivity].
  destruct (String.eqb name "geometry"); [reflexivity|].
  destruct (mixed_group name joined); [reflexivity|].
  destruct (existsb (text_cell name) joined); reflexivity.
Qed.


Lemma weight_error_unweighted (weight_field : option string) (pts : frame)
    (joined : list (point_row * Z)) :
  weighted weight_field pts = None ->
  weight_error weight_field pts joined = None.
Proof. intros H. unfold weight_error, aggregate. now rewrite H. Qed.

Lemma sjoin_fst_In (pts : list point_row) (hex_gdf : list (Z * polygon))
    (row : point_row * Z) :
  In row (sjoin pts hex_gdf) -> In (fst row) pts.
Proof.
  unfold sjoin. rewrite in_flat_map. intros [p [Hp Hin]].
  apply in_flat_map in Hin as [h [_ Hin]].
  destruct (within (pt_xy p) (snd h)); [|destruct Hin].
  destruct Hin as [<- | []]. exact Hp.
Qed.

Lemma existsb_false {A : Type} (f : A -> bool) (l : list A) :
  (forall a, In a l -> f a = false) -> existsb f l = false.
Proof.
  intros H. induction l as [|a l IH]; [reflexivity|].
  cbn [existsb]. rewrite H by (left; reflexivity).
  apply IH. intros b Hb. apply H. right. exact Hb.
Qed.

Lemma text_cell_false (name : string) (row : point_row * Z) :
  ~ In name (pt_text (fst row)) -> text_cell name row = false.
Proof.
  intros Hn. unfold text_cell. apply existsb_false.
  intros a Ha. apply String.eqb_neq. intros ->. contradiction.
Qed.

Lemma weight_error_numeric (weight_field : option string) (pts : frame)
    (hex_gdf : list (Z * polygon)) :
  weight_field <> Some "geometry"%string ->
  numeric_weights weight_field pts ->
  weight_error weight_field pts (sjoin (rows pts) hex_gdf) = None.
Proof.
  intros Hg Hnum. unfold weight_error, aggregate.
  destruct (weighted weight_field pts) as [name|] eqn:Hw; [|reflexivity].
  apply weighted_some in Hw.
  destruct (String.eqb_spec name "geometry") as [-> | _]; [contradiction|].
  assert (Htext : forall row, In row (sjoin (rows pts) hex_gdf) ->
                              text_cell name row = false).
  { intros row Hrow. apply text_cell_false.
    apply (Hnum name (fst row) Hw). now apply sjoin_fst_In in Hrow. }
  unfold mixed_group. rewrite existsb_false.
  - now rewrite (existsb_false _ _ Htext).
  - intros row Hrow. now rewrite (Htext row Hrow).
Qed.

Lemma main_unfold (hex_m : Z) (inputs : list input_file)
    (weight_field : option string) :
  main hex_m inputs weight_field =
  if empty (load_points inputs) then NoPointData
  else
    match make_hex_grid (total_bounds (load_points inputs)) hex_m with
    | Raise e => Crashed e
    | Ok hexes =>
        match weight_error weight_field (load_points inputs)
                (sjoin (rows (load_points inputs)) (reset_index hexes)) with
        | Some e => Crashed e
        | None => Wrote (hotspots weight_field (load_points inputs) hexes)
        end
    end.
Proof.
  unfold main. destruct (empty (load_points inputs)); [reflexivity|].
  destruct (make_hex_grid (total_bounds (load_points inputs)) hex_m)
    as [hexes | e]; [|reflexivity].
  cbv zeta. rewrite aggregate_cases.
  destruct (weight_error weight_field (load_points inputs)
              (sjoin (rows (load_points inputs)) (reset_index hexes)));
    reflexivity.
Qed.

Lemma unweighted_run : (None : option string) <> Some "geometry"%string.
Proof. discriminate. Qed.

(** ** A three-point run at radius 2000 *)

Lemma scenario_load (a b c : list (string * option R)) :
  load_points (scenario_inputs a b c) =
  {| columns := (map fst a ++ map fst b ++ map fst c)%list;
     rows := scenario_rows a b c |}.
Proof.
  unfold load_points, scenario_inputs, scenario_features.
  cbn [flat_map load_frame row_of f_geometry f_props f_text app columns rows].
  now rewrite !app_nil_r.
Qed.

Lemma scenario_bounds (a b c : list (string * option R)) :
  total_bounds (load_points (scenario_inputs a b c)) =
  (lon_of 0, lat_of 0, lon_of 1200, lat_of 2000).
Proof.
  rewrite scenario_load. unfold total_bounds, scenario_rows.
  cbn [rows map pt_xy fst snd fold_left].
  assert (Hx : lon_of 0 < lon_of 1200) by (apply lon_of_lt; lra).
  assert (Hy : lat_of 0 < lat_of 2000) by (apply lat_of_lt; lra).
  repeat f_equal.
  - rewrite (Rmin_left (lon_of 0)) by lra. apply Rmin_left; lra.
  - rewrite (Rmin_right (lat_of 2000)) by lra. apply Rmin_left; lra.
  - rewrite (Rmax_right (lon_of 0)) by lra. apply Rmax_left; lra.
  - rewrite (Rmax_left (lat_of 2000)) by lra. apply Rmax_left; lra.
Qed.

Lemma to_merc_of (x y : R) : to_merc (lon_of x, lat_of y) = (x, y).
Proof. rewrite <- to_wgs_eq. apply to_merc_to_wgs. Qed.

Lemma Zceil_between (x : R) (n : Z) : IZR n - 1 < x <= IZR n -> Zceil x = n.
Proof. intros H. now apply Zceil_eq. Qed.

Lemma scenario_n_cols : n_cols scenario_bbox 2000 = 4%Z.
Proof.
  unfold n_cols, scenario_bbox, padded_min, padded_max, spacing_dx.
  rewrite !to_merc_of. cbn [fst snd].
  pose proof sqrt3_bounds as Hs.
  assert (Hd : 0 < 2000 * sqrt 3) by lra.
  replace (Zceil ((1200 + 2 * 2000 - (0 - 2 * 2000)) / (2000 * sqrt 3)))
    with 3%Z; [reflexivity|].
  symmetry. apply Zceil_between. split.
  - apply Rmult_lt_reg_r with (2000 * sqrt 3); [exact Hd|].
    unfold Rdiv. rewrite Rmult_assoc, Rinv_l by lra. lra.
  - apply Rmult_le_reg_r with (2000 * sqrt 3); [exact Hd|].
    unfold Rdiv. rewrite Rmult_assoc, Rinv_l by lra. lra.
Qed.

Lemma scenario_n_rows : n_rows scenario_bbox 2000 = 5%Z.
Proof.
  unfold n_rows, scenario_bbox, padded_min, padded_max, spacing_dy.
  rewrite !to_merc_of. cbn [fst snd].
  replace (Zceil ((2000 + 2 * 2000 - (0 - 2 * 2000)) / (2000 * 1.5)))
    with 4%Z; [reflexivity|].
  symmetry. apply Zceil_between. split; lra.
Qed.

Lemma scenario_layout : layout_cells scenario_bbox 2000 = scenario_hexes.
Proof.
  unfold layout_cells. rewrite scenario_n_cols, scenario_n_rows.
  unfold scenario_hexes, scenario_bbox, padded_min.
  rewrite !to_merc_of. cbn [fst snd].
  do 2 f_equal; lra.
Qed.

Lemma scenario_grid (a b c : list (string * option R)) :
  make_hex_grid (total_bounds (load_points (scenario_inputs a b c))) 2000 =
  Ok scenario_hexes.
Proof.
  rewrite scenario_bounds, make_hex_grid_nonzero by lia.
  f_equal. apply scenario_layout.
Qed.

Lemma inside_on_center_line (cx cy Rr x y : R) :
  0 < Rr -> y = cy -> cx - Rr < x < cx + Rr ->
  within (lon_of x, lat_of y) (hexagon cx cy Rr) = true.
Proof. intros HR -> Hx. rewrite <- to_wgs_eq. now apply within_center_line. Qed.

Lemma inside_core (cx cy Rr x y : R) :
  0 < Rr -> cx - Rr / 2 <= x <= cx + Rr / 2 ->
  cy - Rr * sqrt 3 / 2 < y < cy + Rr * sqrt 3 / 2 ->
  within (lon_of x, lat_of y) (hexagon cx cy Rr) = true.
Proof. intros. rewrite <- to_wgs_eq. now apply within_core. Qed.

Lemma outside_rows (cx cy Rr x y : R) :
  0 < Rr ->
  cy + Rr * sqrt 3 / 2 <= y \/ y <= cy - Rr * sqrt 3 / 2 ->
  within (lon_of x, lat_of y) (hexagon cx cy Rr) = false.
Proof. intros. rewrite <- to_wgs_eq. now apply outside_far_y. Qed.

Lemma outside_columns (cx cy Rr x y : R) :
  0 < Rr -> x <= cx - Rr \/ cx + Rr <= x ->
  within (lon_of x, lat_of y) (hexagon cx cy Rr) = false.
Proof. intros. rewrite <- to_wgs_eq. now apply outside_far_x. Qed.

Ltac zone :=
  unfold cell_cx, cell_cy, spacing_dx, spacing_dy; cbn [Z.odd];
  pose proof sqrt3_bounds;
  first [ lra | split; lra | left; lra | right; lra ].

Ltac settle_within :=
  repeat match goal with
  | |- context [within (lon_of ?x, lat_of ?y) (hexagon ?cx ?cy ?Rr)] =>
      let H := fresh "Hw" in
      first
        [ assert (H : within (lon_of x, lat_of y) (hexagon cx cy Rr) = true)
            by (first [ apply inside_on_center_line; zone
                      | apply inside_core; zone ])
        | assert (H : within (lon_of x, lat_of y) (hexagon cx cy Rr) = false)
            by (first [ apply outside_rows; zone
                      | apply outside_columns; zone ]) ];
      rewrite H; clear H
  end.

(** The points within each of the twenty hexagons, in grid order: the
    first and the third point are both within hexagon 9, and the third
    point is also within hexagon 10. *)
Lemma scenario_points_within (a b c : list (string * option R)) :
  map (points_within (scenario_rows a b c)) scenario_hexes =
  let p0 := {| pt_xy := (lon_of 0, lat_of 2000);
            pt_props := a; pt_text := [] |} in
  let p1 := {| pt_xy := (lon_of 1200, lat_of 0);
            pt_props := b; pt_text := [] |} in
  let p2 := {| pt_xy := (lon_of 1200, lat_of 2000);
            pt_props := c; pt_text := [] |} in
  [ []; []; []; [];
    []; [p1]; []; [];
    []; [p0; p2]; [p2]; [];
    []; []; []; [];
    []; []; []; [] ].
Proof.
  unfold scenario_hexes, hex_cells, scenario_rows, points_within.
  change (range 5) with [0; 1; 2; 3; 4]%Z.
  change (range 4) with [0; 1; 2; 3]%Z.
  cbn [flat_map map app filter pt_xy].
  settle_within. reflexivity.
Qed.

Lemma scenario_hexes_length : List.length scenario_hexes = 20%nat.
Proof. unfold scenario_hexes. now rewrite hex_cells_length. Qed.

Lemma scenario_numeric (a b c : list (string * option R))
    (weight_field : option string) :
  numeric_weights weight_field (load_points (scenario_inputs a b c)).
Proof.
  intros name p _. rewrite scenario_load. cbn [rows scenario_rows].
  intros [<- | [<- | [<- | []]]]; exact (fun H => H).
Qed.

Lemma scenario_main (a b c : list (string * option R))
    (weight_field : option string) :
  weight_field <> Some "geometry"%string ->
  main 2000 (scenario_inputs a b c) weight_field =
  Wrote (hotspots weight_field (load_points (scenario_inputs a b c))
                  scenario_hexes).
Proof.
  intros Hw. rewrite main_unfold, scenario_grid.
  rewrite weight_error_numeric by (exact Hw || apply scenario_numeric).
  rewrite scenario_load. reflexivity.
Qed.

Lemma map_combine_snd {A B C D : Type} (F : A -> C -> D) (G : B -> C)
    (l1 : list A) (l2 : list B) :
  map (fun h => F (fst h) (G (snd h))) (combine l1 l2) =
  map (fun kp => F (fst kp) (snd kp)) (combine l1 (map G l2)).
Proof.
  revert l2. induction l1 as [|x l1 IH]; intros [|y l2]; try reflexivity.
  cbn. f_equal. apply IH.
Qed.

(** The exported values in terms of the points within each hexagon. *)
Lemma hotspots_values (weight_field : option string) (pts : frame)
    (hexes : list polygon) :
  map value (hotspots weight_field pts hexes) =
  map (fun kp => cell_value weight_field pts
                   (map (fun p => (p, fst kp)) (snd kp)))
      (combine (range (Z.of_nat (List.length hexes)))
               (map (points_within (rows pts)) hexes)).
Proof.
  rewrite hotspots_records, map_map. unfold reset_index.
  apply (map_combine_snd
           (fun k ps => cell_value weight_field pts (map (fun p => (p, k)) ps))
           (points_within (rows pts))).
Qed.

Lemma scenario_values (a b c : list (string * option R))
    (weight_field : option string) :
  let pts := load_points (scenario_inputs a b c) in
  let p0 := {| pt_xy := (lon_of 0, lat_of 2000);
            pt_props := a; pt_text := [] |} in
  let p1 := {| pt_xy := (lon_of 1200, lat_of 0);
            pt_props := b; pt_text := [] |} in
  let p2 := {| pt_xy := (lon_of 1200, lat_of 2000);
            pt_props := c; pt_text := [] |} in
  let v := cell_value weight_field pts in
  map value (hotspots weight_field pts scenario_hexes) =
  [ 0; 0; 0; 0;
    0; v [(p1, 5%Z)]; 0; 0;
    0; v [(p0, 9%Z); (p2, 9%Z)]; v [(p2, 10%Z)]; 0;
    0; 0; 0; 0;
    0; 0; 0; 0 ].
Proof.
  intros pts p0 p1 p2 v.
  rewrite hotspots_values, scenario_hexes_length.
  unfold pts at 2. rewrite scenario_load. cbn [rows].
  rewrite scenario_points_within.
  change (range (Z.of_nat 20))
    with [0; 1; 2; 3; 4; 5; 6; 7; 8; 9; 10; 11; 12; 13; 14; 15; 16; 17; 18; 19]%Z.
  cbn [combine map fst snd].
  rewrite !cell_value_nil. reflexivity.
Qed.

(** ** Area and density *)

Lemma hexagon_area (cx cy Rr : R) :
  polygon_area (map to_merc (hexagon cx cy Rr)) = 3 * sqrt 3 / 2 * (Rr * Rr).
Proof.
  rewrite hexagon_vertices. cbn [map]. rewrite !to_merc_to_wgs.
  unfold polygon_area, edges. cbn [combine app map fold_right fst snd].
  pose proof sqrt3_pos as Hs.
  match goal with
  | |- Rabs ?e / 2 = _ =>
      replace e with (3 * sqrt 3 * (Rr * Rr)) by field
  end.
  rewrite Rabs_right by nra. field.
Qed.

Lemma FLOAT64_OVERFLOW_pos : 0 < FLOAT64_OVERFLOW.
Proof. unfold FLOAT64_OVERFLOW. apply IZR_lt. reflexivity. Qed.

Lemma density_cases (v a : R) :
  (0 < a -> - FLOAT64_OVERFLOW < v / a < FLOAT64_OVERFLOW ->
   density v a = Finite (v / a)) /\
  (0 < a -> FLOAT64_OVERFLOW <= v / a -> density v a = PosInf) /\
  (0 < a -> v / a <= - FLOAT64_OVERFLOW -> density v a = NegInf) /\
  (a <= 0 -> density v a = Finite 0).
Proof.
  pose proof FLOAT64_OVERFLOW_pos as Hov.
  unfold density, npdiv. repeat split.
  - intros Ha Hq. apply Rltb_true in Ha as Hb. rewrite Hb.
    destruct (Req_dec_T a 0) as [E | _]; [lra|].
    destruct (Rle_dec FLOAT64_OVERFLOW (v / a)) as [H1 | _]; [lra|].
    destruct (Rle_dec (v / a) (- FLOAT64_OVERFLOW)) as [H2 | _]; [lra|].
    reflexivity.
  - intros Ha Hq. apply Rltb_true in Ha as Hb. rewrite Hb.
    destruct (Req_dec_T a 0) as [E | _]; [lra|].
    destruct (Rle_dec FLOAT64_OVERFLOW (v / a)) as [_ | H1]; [reflexivity|].
    contradiction.
  - intros Ha Hq. apply Rltb_true in Ha as Hb. rewrite Hb.
    destruct (Req_dec_T a 0) as [E | _]; [lra|].
    destruct (Rle_dec FLOAT64_OVERFLOW (v / a)) as [H1 | _]; [lra|].
    destruct (Rle_dec (v / a) (- FLOAT64_OVERFLOW)) as [_ | H2];
      [reflexivity | contradiction].
  - intros Ha. apply Rltb_false in Ha as Hb. now rewrite Hb.
Qed.

Lemma density_nonnegative (v a : R) :
  0 <= v -> 0 < a ->
  (density v a = PosInf \/
   exists d, density v a = Finite d /\ 0 <= d) /\
  (v / a < FLOAT64_OVERFLOW ->
   exists d, density v a = Finite d /\ 0 <= d).
Proof.
  intros Hv Ha. pose proof FLOAT64_OVERFLOW_pos as Hov.
  assert (Hq : 0 <= v / a).
  { apply Rmult_le_pos; [exact Hv|]. left. now apply Rinv_0_lt_compat. }
  destruct (density_cases v a) as (Hfin & Hinf & _ & _).
  split.
  - destruct (Rlt_or_le (v / a) FLOAT64_OVERFLOW) as [Hlt | Hge].
    + right. exists (v / a). split; [apply Hfin; [exact Ha | lra] | exact Hq].
    + left. now apply Hinf.
  - intros Hlt. exists (v / a).
    split; [apply Hfin; [exact Ha | lra] | exact Hq].
Qed.

Lemma hex_cells_In (minx_m miny_m dx dy Rr : R) (nrows ncols : Z)
    (g : polygon) :
  In g (hex_cells minx_m miny_m dx dy Rr nrows ncols) ->
  exists cx cy, g = hexagon cx cy Rr.
Proof.
  unfold hex_cells. rewrite in_flat_map. intros [r [_ Hg]].
  apply in_map_iff in Hg. destruct Hg as [c [<- _]]. eauto.
Qed.

Lemma record_of_fields (weight_field : option string) (pts : frame)
    (h : Z * polygon) :
  let r := record_of weight_field pts h in
  hex_id r = fst h /\ geometry r = snd h /\
  area_km2 r = polygon_area (map to_merc (snd h)) / 1000000 /\
  density_per_km2 r = density (value r) (area_km2 r) /\
  value r = cell_value weight_field pts
              (map (fun p => (p, fst h)) (points_within (rows pts) (snd h))).
Proof. cbn. repeat split. Qed.

(** ** Loading and the control flow of [main] *)

Lemma load_frame_rows (f : input_file) :
  flat_map rows (load_frame f) = usable_points f.
Proof.
  destruct f as [| | declared features]; try reflexivity.
  cbn [load_frame usable_points]. destruct features as [|x l]; [reflexivity|].
  destruct (flat_map (row_of declared) (x :: l)) as [|r rs]; [reflexivity|].
  cbn. now rewrite app_nil_r.
Qed.

Lemma flat_map_flat_map {A B C : Type} (f : A -> list B) (g : B -> list C)
    (l : list A) :
  flat_map g (flat_map f l) = flat_map (fun a => flat_map g (f a)) l.
Proof.
  induction l as [|a l IH]; [reflexivity|].
  cbn [flat_map]. now rewrite flat_map_app, IH.
Qed.

Lemma load_points_rows (in_files : list input_file) :
  rows (load_points in_files) = flat_map usable_points in_files.
Proof.
  unfold load_points. cbn [rows]. rewrite flat_map_flat_map.
  apply flat_map_ext. intros f. apply load_frame_rows.
Qed.

Lemma main_without_points (hex_m : Z) (inputs : list input_file)
    (weight_field : option string) :
  flat_map usable_points inputs = [] ->
  main hex_m inputs weight_field = NoPointData.
Proof.
  intros H. unfold main, empty. now rewrite load_points_rows, H.
Qed.

Lemma main_with_points (hex_m : Z) (inputs : list input_file)
    (weight_field : option string) :
  flat_map usable_points inputs <> [] ->
  main hex_m inputs weight_field =
  match make_hex_grid (total_bounds (load_points inputs)) hex_m with
  | Raise e => Crashed e
  | Ok hexes =>
      match weight_error weight_field (load_points inputs)
              (sjoin (rows (load_points inputs)) (reset_index hexes)) with
      | Some e => Crashed e
      | None => Wrote (hotspots weight_field (load_points inputs) hexes)
      end
  end.
Proof.
  intros H. rewrite main_unfold. unfold empty. rewrite load_points_rows.
  destruct (flat_map usable_points inputs); [contradiction | reflexivity].
Qed.

Lemma main_wrote (hex_m : Z) (inputs : list input_file)
    (weight_field : option string) :
  flat_map usable_points inputs <> [] -> hex_m <> 0%Z ->
  weight_field <> Some "geometry"%string ->
  numeric_weights weight_field (load_points inputs) ->
  main hex_m inputs weight_field =
  Wrote (hotspots weight_field (load_points inputs)
           (layout_cells (total_bounds (load_points inputs)) hex_m)).
Proof.
  intros Hpts HR Hw Hnum. rewrite main_with_points by exact Hpts.
  rewrite make_hex_grid_nonzero by exact HR.
  now rewrite weight_error_numeric.
Qed.

Lemma scenario_usable (a b c : list (string * option R)) :
  flat_map usable_points (scenario_inputs a b c) <> [].
Proof. discriminate. Qed.

(** ** Auxiliary facts *)

Lemma wrote_inversion (hex_m : Z) (inputs : list input_file)
    (weight_field : option string) (features : list hex_record) :
  main hex_m inputs weight_field = Wrote features ->
  hex_m <> 0%Z /\
  features = hotspots weight_field (load_points inputs)
               (layout_cells (total_bounds (load_points inputs)) hex_m).
Proof.
  intros Hmain.
  destruct (flat_map usable_points inputs) as [|p l] eqn:E.
  - rewrite main_without_points in Hmain by exact E. discriminate.
  - rewrite main_with_points in Hmain by (rewrite E; discriminate).
    destruct (Z.eq_dec hex_m 0) as [-> | Hne].
    + rewrite make_hex_grid_zero in Hmain. discriminate.
    + rewrite make_hex_grid_nonzero in Hmain by exact Hne.
      destruct (weight_error weight_field (load_points inputs) _);
        [discriminate|].
      split; [exact Hne | congruence].
Qed.

(** ** Boundary points *)

Lemma orient_on_segment (a b q : R * R) : on_segment a b q -> orient a b q = 0.
Proof. intros [t [_ ->]]. unfold orient. cbn [fst snd]. ring. Qed.

Lemma sjoin_In (pts : list point_row) (hex_gdf : list (Z * polygon))
    (p : point_row) (k : Z) :
  In (p, k) (sjoin pts hex_gdf) ->
  exists g, In (k, g) hex_gdf /\ within (pt_xy p) g = true.
Proof.
  unfold sjoin. rewrite in_flat_map. intros [p' [_ Hin]].
  apply in_flat_map in Hin as [[k' g] [Hh Hin]]. cbn [fst snd] in Hin.
  destruct (within (pt_xy p') g) eqn:E; [|destruct Hin].
  destruct Hin as [Heq | []]. injection Heq as -> ->. eauto.
Qed.

Lemma within_boundary_false (q : R * R) (poly : polygon) :
  on_boundary q poly -> within q poly = false.
Proof.
  intros [e [He Hseg]]. apply orient_on_segment in Hseg.
  unfold within. apply orb_false_iff. split.
  - apply not_true_is_false. intros Hall.
    rewrite forallb_forall in Hall. specialize (Hall e He).
    rewrite Hseg in Hall. apply Rltb_true in Hall. lra.
  - apply not_true_is_false. intros Hall.
    rewrite forallb_forall in Hall. specialize (Hall e He).
    rewrite Hseg in Hall. apply Rltb_true in Hall. lra.
Qed.

(** ** Weights *)

Lemma nansum_sum (cells : list (option R)) :
  nansum cells =
  fold_right Rplus 0
    (map (fun c => match c with Some w => w | None => 0 end) cells).
Proof.
  unfold nansum.
  induction cells as [|[w|] l IH]; cbn [fold_right map];
    [reflexivity | now rewrite IH | rewrite IH; lra].
Qed.

Lemma joined_attr_data (name : string) (p : point_row) (k : Z) :
  ~ In name structural_columns ->
  match joined_attr name (p, k) with Some w => w | None => 0 end =
  point_weight name p.
Proof.
  intros Hn. unfold joined_attr, point_weight. cbn [fst snd].
  destruct (String.eqb_spec name "hex_id") as [-> | _].
  { exfalso. apply Hn. cbn. tauto. }
  destruct (String.eqb_spec name "index_right") as [-> | _].
  { exfalso. apply Hn. cbn. tauto. }
  cbn [orb].
  destruct (find (fun kv => String.eqb (fst kv) name) (pt_props p))
    as [[key [w|]]|]; reflexivity.
Qed.

(** ** A run over titled points *)





(** ** A heavy point at radius 1 *)

Lemma heavy_load :
  load_points heavy_inputs =
  {| columns := ["w"%string];
     rows := [ {| pt_xy := (lon_of 0, lat_of 0); pt_props := []; pt_text := [] |};
               {| pt_xy := (lon_of 0, lat_of 1);
                  pt_props := [("w"%string, Some 1e308)];
                  pt_text := [] |} ] |}.
Proof. reflexivity. Qed.

Lemma heavy_numeric (weight_field : option string) :
  numeric_weights weight_field (load_points heavy_inputs).
Proof.
  intros name p _. rewrite heavy_load. cbn [rows].
  intros [<- | [<- | []]]; exact (fun H => H).
Qed.

Lemma heavy_bounds :
  total_bounds (load_points heavy_inputs) =
  (lon_of 0, lat_of 0, lon_of 0, lat_of 1).
Proof.
  rewrite heavy_load. unfold total_bounds.
  cbn [rows map pt_xy fst snd fold_left].
  assert (Hy : lat_of 0 < lat_of 1) by (apply lat_of_lt; lra).
  rewrite Rmin_left, Rmax_left by apply Rle_refl.
  rewrite Rmin_left, Rmax_right by lra. reflexivity.
Qed.

Lemma heavy_n_cols : n_cols (lon_of 0, lat_of 0, lon_of 0, lat_of 1) 1 = 4%Z.
Proof.
  unfold n_cols, padded_min, padded_max, spacing_dx.
  rewrite !to_merc_of. cbn [fst snd].
  pose proof sqrt3_bounds as Hs.
  assert (Hd : 0 < 1 * sqrt 3) by lra.
  replace (Zceil ((0 + 2 * 1 - (0 - 2 * 1)) / (1 * sqrt 3)))
    with 3%Z; [reflexivity|].
  symmetry. apply Zceil_between. split.
  - apply Rmult_lt_reg_r with (1 * sqrt 3); [exact Hd|].
    unfold Rdiv. rewrite Rmult_assoc, Rinv_l by lra. lra.
  - apply Rmult_le_reg_r with (1 * sqrt 3); [exact Hd|].
    unfold Rdiv. rewrite Rmult_assoc, Rinv_l by lra. lra.
Qed.

Lemma heavy_n_rows : n_rows (lon_of 0, lat_of 0, lon_of 0, lat_of 1) 1 = 5%Z.
Proof.
  unfold n_rows, padded_min, padded_max, spacing_dy.
  rewrite !to_merc_of. cbn [fst snd].
  replace (Zceil ((1 + 2 * 1 - (0 - 2 * 1)) / (1 * 1.5)))
    with 4%Z; [reflexivity|].
  symmetry. apply Zceil_between. split; lra.
Qed.

(** The cell of row 2 and column 1 of that grid, hexagon 9. *)
Lemma heavy_record :
  nth_error (hotspots (Some "w"%string) (load_points heavy_inputs)
               (layout_cells (total_bounds (load_points heavy_inputs)) 1)) 9 =
  Some (record_of (Some "w"%string) (load_points heavy_inputs)
                  (9%Z, heavy_cell)).
Proof.
  rewrite hotspots_records, heavy_bounds.
  apply map_nth_error.
  change 9%Z with (Z.of_nat 9). apply reset_index_nth_error.
  unfold layout_cells. rewrite heavy_n_cols, heavy_n_rows.
  change 9%nat with (Z.to_nat (2 * 4 + 1)).
  rewrite hex_cells_nth_error by lia.
  unfold heavy_cell, padded_min, cell_cx, cell_cy, spacing_dx, spacing_dy.
  rewrite !to_merc_of. cbn [fst snd Z.odd].
  f_equal. f_equal; lra.
Qed.

Lemma heavy_point_within :
  within (lon_of 0, lat_of 1) heavy_cell = true.
Proof.
  unfold heavy_cell. pose proof sqrt3_bounds as Hs.
  apply inside_on_center_line; lra.
Qed.

Lemma heavy_value :
  cell_value (Some "w"%string) (load_points heavy_inputs)
    (map (fun p => (p, 9%Z))
         (points_within (rows (load_points heavy_inputs)) heavy_cell)) =
  1e308.
Proof.
  unfold cell_value. rewrite heavy_load.
  cbn [weighted truthy String.eqb Ascii.eqb Bool.eqb joined_columns columns
       structural_columns app existsb orb andb].
  unfold points_within. cbn [rows filter pt_xy].
  rewrite heavy_point_within.
  destruct (within (lon_of 0, lat_of 0) heavy_cell);
    cbn [map joined_attr nansum fold_right String.eqb Ascii.eqb Bool.eqb
         orb andb find fst snd pt_props]; lra.
Qed.

Lemma heavy_quotient :
  FLOAT64_OVERFLOW <= 1e308 / (3 * sqrt 3 / 2 / 1000000).
Proof.
  pose proof sqrt3_bounds as Hs.
  assert (Hov : FLOAT64_OVERFLOW <= 1e309).
  { replace 1e309 with (IZR (10 ^ 309)) by lra.
    unfold FLOAT64_OVERFLOW. apply IZR_le. apply Z.leb_le.
    vm_compute. reflexivity. }
  apply Rle_trans with 1e309; [exact Hov|].
  apply Rmult_le_reg_r with (3 * sqrt 3 / 2 / 1000000); [lra|].
  replace (1e308 / (3 * sqrt 3 / 2 / 1000000) * (3 * sqrt 3 / 2 / 1000000))
    with 1e308 by (field; lra).
  lra.
Qed.

(** * The claims *)

(** C1, at a run the code can receive (three points, radius 2000): the
    grid has 20 hexagons and the join assigns the third point, which is
    one of the inputs and the upper right corner of their bounding box, to
    two hexagons, 9 and 10: the join has four rows for three points. *)
Theorem point_within_two_hexagons :
  let pts := load_points (scenario_inputs [] [] []) in
  let p0 := {| pt_xy := (lon_of 0, lat_of 2000);
            pt_props := []; pt_text := [] |} in
  let p1 := {| pt_xy := (lon_of 1200, lat_of 0);
            pt_props := []; pt_text := [] |} in
  let p2 := {| pt_xy := (lon_of 1200, lat_of 2000);
            pt_props := []; pt_text := [] |} in
  rows pts = [p0; p1; p2] /\
  total_bounds pts = (lon_of 0, lat_of 0, fst (pt_xy p2), snd (pt_xy p2)) /\
  exists hexes,
    make_hex_grid (total_bounds pts) 2000 = Ok hexes /\
    List.length hexes = 20%nat /\
    sjoin (rows pts) (reset_index hexes) =
    [(p0, 9%Z); (p1, 5%Z); (p2, 9%Z); (p2, 10%Z)].
Proof.
  intros pts p0 p1 p2.
  split; [unfold pts; rewrite scenario_load; reflexivity|].
  split; [apply scenario_bounds|].
  exists scenario_hexes.
  split; [apply scenario_grid|]. split; [apply scenario_hexes_length|].
  unfold pts. rewrite scenario_load. cbn [rows].
  unfold reset_index. rewrite scenario_hexes_length.
  change (range (Z.of_nat 20))
    with [0; 1; 2; 3; 4; 5; 6; 7; 8; 9; 10; 11; 12; 13; 14; 15; 16; 17; 18; 19]%Z.
  unfold scenario_hexes, hex_cells, scenario_rows, sjoin.
  change (range 5) with [0; 1; 2; 3; 4]%Z.
  change (range 4) with [0; 1; 2; 3]%Z.
  cbn [flat_map map app combine pt_xy fst snd].
  settle_within. reflexivity.
Qed.

(** C2, at the same run: all three points lie inside their own bounding
    box, the collection is written, and the exported values sum to 4. *)
Theorem total_value_exceeds_point_count :
  let inputs := scenario_inputs [] [] [] in
  List.length (rows (load_points inputs)) = 3%nat /\
  exists features,
    main 2000 inputs None = Wrote features /\
    map value features =
      [0; 0; 0; 0; 0; 1; 0; 0; 0; 2; 1; 0; 0; 0; 0; 0; 0; 0; 0; 0] /\
    total_value features = 4.
Proof.
  intros inputs. unfold inputs.
  split; [rewrite scenario_load; reflexivity|].
  eexists. split; [apply scenario_main; discriminate|].
  assert (Hv : map value
                 (hotspots None (load_points (scenario_inputs [] [] []))
                    scenario_hexes) =
               [0; 0; 0; 0; 0; 1; 0; 0; 0; 2; 1; 0; 0; 0; 0; 0; 0; 0; 0; 0]).
  { rewrite (scenario_values [] [] [] None). cbv zeta.
    unfold cell_value. rewrite scenario_load.
    cbn [weighted truthy List.length INR]. repeat f_equal; lra. }
  split; [exact Hv|].
  unfold total_value. rewrite Hv. cbn [fold_right]. lra.
Qed.

(** C3 (as the code behaves): no radius check exists.  With radius 0 the
    grid computation itself raises the division-by-zero error, and a run
    that loaded at least one point ends with it; with a negative radius
    [make_hex_grid] raises nothing and returns a list of polygons; a run
    without usable points reports the missing data whatever the radius. *)
Theorem nonpositive_radius_not_rejected (hex_m : Z)
    (inputs : list input_file) (weight_field : option string) :
  (hex_m <= 0)%Z ->
  (flat_map usable_points inputs = [] ->
   main hex_m inputs weight_field = NoPointData) /\
  (hex_m = 0%Z ->
   (forall bounds, make_hex_grid bounds hex_m = Raise ZeroDivisionError) /\
   (flat_map usable_points inputs <> [] ->
    main hex_m inputs weight_field = Crashed ZeroDivisionError)) /\
  ((hex_m < 0)%Z ->
   forall bounds, exists polys, make_hex_grid bounds hex_m = Ok polys).
Proof.
  intros Hle. split; [apply main_without_points|]. split.
  - intros ->. split; [apply make_hex_grid_zero|].
    intros Hpts. rewrite main_with_points by exact Hpts.
    now rewrite make_hex_grid_zero.
  - intros Hneg bounds. exists (layout_cells bounds hex_m).
    apply make_hex_grid_nonzero. lia.
Qed.

Lemma nonpositive_radius_not_rejected_witness :
  main 0 (scenario_inputs [] [] []) None = Crashed ZeroDivisionError.
Proof.
  destruct (nonpositive_radius_not_rejected 0 (scenario_inputs [] [] []) None)
    as [_ [H _]]; [discriminate|].
  destruct (H eq_refl) as [_ Hmain].
  apply Hmain. apply scenario_usable.
Defined.

(** C3, refuted as stated: with radius 0 and three loaded points nothing
    is reported before the grid computation; [make_hex_grid] is entered
    and raises the arithmetic error. *)
Lemma zero_radius_raises_arithmetic_error :
  rows (load_points (scenario_inputs [] [] [])) <> [] /\
  make_hex_grid (total_bounds (load_points (scenario_inputs [] [] []))) 0 =
  Raise ZeroDivisionError /\
  main 0 (scenario_inputs [] [] []) None = Crashed ZeroDivisionError.
Proof.
  split; [rewrite scenario_load; discriminate|].
  split; [apply make_hex_grid_zero|].
  rewrite main_with_points by apply scenario_usable.
  now rewrite make_hex_grid_zero.
Qed.

(** A negative radius is not rejected either: at radius -2000 the same
    three points give a grid of 3 rows of 3 cells, and the collection is
    written. *)
Lemma negative_radius_builds_grid :
  exists features,
    main (-2000) (scenario_inputs [] [] []) None = Wrote features /\
    List.length features = 9%nat.
Proof.
  rewrite main_with_points by apply scenario_usable.
  rewrite make_hex_grid_nonzero by discriminate.
  eexists. split; [reflexivity|].
  rewrite hotspots_records, length_map, reset_index_length.
  rewrite scenario_bounds. unfold layout_cells. rewrite hex_cells_length.
  pose proof sqrt3_bounds as Hs.
  assert (Hr : n_rows (lon_of 0, lat_of 0, lon_of 1200, lat_of 2000) (-2000)
               = 3%Z).
  { unfold n_rows, padded_min, padded_max, spacing_dy.
    rewrite !to_merc_of. cbn [fst snd].
    replace (Zceil ((2000 + 2 * -2000 - (0 - 2 * -2000)) / (-2000 * 1.5)))
      with 2%Z; [reflexivity|].
    symmetry. apply Zceil_between. split; lra. }
  assert (Hc : n_cols (lon_of 0, lat_of 0, lon_of 1200, lat_of 2000) (-2000)
               = 3%Z).
  { unfold n_cols, padded_min, padded_max, spacing_dx.
    rewrite !to_merc_of. cbn [fst snd].
    replace (Zceil ((1200 + 2 * -2000 - (0 - 2 * -2000)) / (-2000 * sqrt 3)))
      with 2%Z; [reflexivity|].
    symmetry. apply Zceil_between.
    replace ((1200 + 2 * -2000 - (0 - 2 * -2000)) / (-2000 * sqrt 3))
      with (6800 / (2000 * sqrt 3)) by (field; lra).
    assert (Hd : 0 < 2000 * sqrt 3) by lra.
    split.
    - apply Rmult_lt_reg_r with (2000 * sqrt 3); [exact Hd|].
      unfold Rdiv. rewrite Rmult_assoc, Rinv_l by lra. lra.
    - apply Rmult_le_reg_r with (2000 * sqrt 3); [exact Hd|].
      unfold Rdiv. rewrite Rmult_assoc, Rinv_l by lra. lra. }
  rewrite Hr, Hc. reflexivity.
Qed.

(** C4: for every bounding box and every positive radius R,
    [make_hex_grid] pads the projected box by 2*R on each side and lays
    the hexagon centres out with horizontal spacing dx = R*sqrt(3) and
    vertical spacing dy = R*1.5, in ceil(padded_width/dx)+1 columns and
    ceil(padded_height/dy)+1 rows (row-major, odd rows shifted by dx/2). *)
Theorem grid_layout (minx miny maxx maxy : R) (hex_radius_m : Z) :
  (0 < hex_radius_m)%Z ->
  let Rr := IZR hex_radius_m in
  let minx_m := fst (to_merc (minx, miny)) - 2 * Rr in
  let miny_m := snd (to_merc (minx, miny)) - 2 * Rr in
  let maxx_m := fst (to_merc (maxx, maxy)) + 2 * Rr in
  let maxy_m := snd (to_merc (maxx, maxy)) + 2 * Rr in
  let dx := Rr * sqrt 3 in
  let dy := Rr * 1.5 in
  let ncols := (Zceil ((maxx_m - minx_m) / dx) + 1)%Z in
  let nrows := (Zceil ((maxy_m - miny_m) / dy) + 1)%Z in
  exists polys,
    make_hex_grid (minx, miny, maxx, maxy) hex_radius_m = Ok polys /\
    List.length polys = (Z.to_nat nrows * Z.to_nat ncols)%nat /\
    forall r c, (0 <= r < nrows)%Z -> (0 <= c < ncols)%Z ->
      nth_error polys (Z.to_nat (r * ncols + c)) =
      Some (hexagon (minx_m + IZR c * dx + (if Z.odd r then dx / 2 else 0))
                    (miny_m + IZR r * dy) Rr).
Proof.
  intros HR Rr minx_m miny_m maxx_m maxy_m dx dy ncols nrows.
  exists (hex_cells minx_m miny_m dx dy Rr nrows ncols).
  split; [rewrite make_hex_grid_nonzero by lia; reflexivity|].
  split.
  - exact (hex_cells_length minx_m miny_m dx dy Rr nrows ncols).
  - intros r c Hr Hc.
    exact (hex_cells_nth_error minx_m miny_m dx dy Rr nrows ncols r c Hr Hc).
Qed.

Lemma grid_layout_witness :
  (0 < 2000)%Z /\
  exists polys, make_hex_grid (0, 0, 0, 0) 2000 = Ok polys.
Proof.
  split; [reflexivity|].
  destruct (grid_layout 0 0 0 0 2000) as [polys [H _]]; [reflexivity|].
  exists polys. exact H.
Defined.

(** C5: in the cell at (row, col) of a generated grid odd rows are
    shifted by dx/2 relative to even rows; the six vertices are placed at
    the angles 60 degrees * i, i = 0..5, each at planar distance radius_m
    from the cell centre (the absolute value, should the radius be
    negative), and each vertex is reprojected to geographic degrees before
    it is stored in the polygon. *)
Theorem cell_geometry (bounds : R * R * R * R) (hex_radius_m r c : Z) :
  hex_radius_m <> 0%Z ->
  (0 <= r < n_rows bounds hex_radius_m)%Z ->
  (0 <= c < n_cols bounds hex_radius_m)%Z ->
  let Rr := IZR hex_radius_m in
  let dx := spacing_dx hex_radius_m in
  let cx := fst (padded_min bounds hex_radius_m) + IZR c * dx
            + (if Z.odd r then dx / 2 else 0) in
  let cy := snd (padded_min bounds hex_radius_m)
            + IZR r * spacing_dy hex_radius_m in
  let vertex_m (i : nat) :=
    (cx + Rr * cos (60 * INR i * PI / 180),
     cy + Rr * sin (60 * INR i * PI / 180)) in
  exists polys,
    make_hex_grid bounds hex_radius_m = Ok polys /\
    nth_error polys (Z.to_nat (r * n_cols bounds hex_radius_m + c)) =
      Some (map (fun i => to_wgs (vertex_m i)) [0; 1; 2; 3; 4; 5]%nat) /\
    forall i : nat,
      sqrt ((fst (vertex_m i) - cx)² + (snd (vertex_m i) - cy)²) = Rabs Rr /\
      ((0 < hex_radius_m)%Z ->
       sqrt ((fst (vertex_m i) - cx)² + (snd (vertex_m i) - cy)²) = Rr).
Proof.
  intros HR Hr Hc Rr dx cx cy vertex_m.
  exists (layout_cells bounds hex_radius_m).
  split; [apply make_hex_grid_nonzero; exact HR|].
  assert (Hang : forall i : nat, 60 * INR i * PI / 180 = PI / 3 * INR i)
    by (intros i; field).
  split.
  - unfold layout_cells. rewrite hex_cells_nth_error by assumption.
    f_equal. unfold hexagon. apply map_ext. intros i.
    unfold hex_vertex_m, vertex_m. now rewrite Hang.
  - intros i. unfold vertex_m. cbn [fst snd].
    set (a := 60 * INR i * PI / 180).
    replace ((cx + Rr * cos a - cx)² + (cy + Rr * sin a - cy)²)
      with (Rr² * ((sin a)² + (cos a)²)) by (unfold Rsqr; ring).
    rewrite sin2_cos2, Rmult_1_r, sqrt_Rsqr_abs.
    split; [reflexivity|].
    intros Hpos. apply Rabs_right. apply Rle_ge. left.
    apply IZR_lt. exact Hpos.
Qed.

Lemma cell_geometry_witness :
  exists polys, make_hex_grid scenario_bbox 2000 = Ok polys.
Proof.
  destruct (cell_geometry scenario_bbox 2000 0 0) as [polys [H _]].
  - discriminate.
  - rewrite scenario_n_rows. split; [apply Z.le_refl | reflexivity].
  - rewrite scenario_n_cols. split; [apply Z.le_refl | reflexivity].
  - exists polys. exact H.
Defined.




(** C7 (as the code behaves): for every exported hexagon
    density_per_km2 is 0.0 when area_km2 <= 0 and the float64 quotient
    value / area_km2 when area_km2 > 0, so the division is never
    evaluated on a zero divisor; every area is 3*sqrt(3)/2 * R^2 / 1e6,
    which is positive, so the quotient is always taken.  The quotient is
    the exact one while it stays inside the range of float64 and the
    infinity of its sign beyond that range. *)
Theorem density_guarded (hex_m : Z) (inputs : list input_file)
    (weight_field : option string) (features : list hex_record) :
  main hex_m inputs weight_field = Wrote features ->
  Forall (fun r =>
    (0 < area_km2 r ->
     (- FLOAT64_OVERFLOW < value r / area_km2 r < FLOAT64_OVERFLOW ->
      density_per_km2 r = Finite (value r / area_km2 r)) /\
     (FLOAT64_OVERFLOW <= value r / area_km2 r ->
      density_per_km2 r = PosInf) /\
     (value r / area_km2 r <= - FLOAT64_OVERFLOW ->
      density_per_km2 r = NegInf)) /\
    (area_km2 r <= 0 -> density_per_km2 r = Finite 0) /\
    area_km2 r = 3 * sqrt 3 / 2 * (IZR hex_m * IZR hex_m) / 1000000 /\
    0 < area_km2 r) features.
Proof.
  intros Hmain. apply wrote_inversion in Hmain as [Hne ->].
  rewrite hotspots_records.
  apply Forall_forall. intros r Hr.
  apply in_map_iff in Hr as [h [<- Hh]].
  destruct (record_of_fields weight_field (load_points inputs) h)
    as (_ & _ & Ha & Hd & _).
  cbv zeta in Ha, Hd. rewrite Hd.
  destruct (density_cases
              (value (record_of weight_field (load_points inputs) h))
              (area_km2 (record_of weight_field (load_points inputs) h)))
    as (Hfin & Hpos & Hneg & Hzero).
  split; [intros Hlt; repeat split; auto|].
  split; [exact Hzero|].
  assert (Hg : In (snd h)
                  (layout_cells (total_bounds (load_points inputs)) hex_m)).
  { rewrite <- (reset_index_snd (layout_cells _ hex_m)).
    now apply in_map. }
  unfold layout_cells in Hg.
  destruct (hex_cells_In _ _ _ _ _ _ _ _ Hg) as [cx [cy Hcell]].
  rewrite Hcell, hexagon_area in Ha.
  split; [exact Ha|].
  assert (HRr : IZR hex_m <> 0) by (apply not_0_IZR; exact Hne).
  pose proof sqrt3_pos as Hs.
  assert (Hsq : 0 < IZR hex_m * IZR hex_m) by nra.
  rewrite Ha. apply Rdiv_lt_0_compat; [|lra].
  apply Rmult_lt_0_compat; lra.
Qed.

Lemma density_guarded_witness :
  Forall (fun r => 0 < area_km2 r)
         (hotspots None (load_points (scenario_inputs [] [] []))
                   scenario_hexes).
Proof.
  pose proof (density_guarded 2000 (scenario_inputs [] [] []) None _
                (scenario_main [] [] [] None unweighted_run)) as H.
  eapply Forall_impl; [|exact H].
  intros r (_ & _ & _ & Hpos). exact Hpos.
Defined.

(** C7, refuted as stated: at radius 1 every hexagon has the area
    3*sqrt(3)/2 / 1e6 km2; the point of weight 1e308 lies in hexagon 9,
    whose value is 1e308, a finite float64, and whose density
    1e308 / area_km2 is beyond the range of float64: the exported
    density is an infinity. *)
Lemma large_weight_gives_infinite_density :
  exists features rec,
    main 1 heavy_inputs (Some "w"%string) = Wrote features /\
    nth_error features 9 = Some rec /\
    value rec = 1e308 /\
    area_km2 rec = 3 * sqrt 3 / 2 / 1000000 /\
    density_per_km2 rec = PosInf.
Proof.
  exists (hotspots (Some "w"%string) (load_points heavy_inputs)
            (layout_cells (total_bounds (load_points heavy_inputs)) 1)).
  eexists. split; [apply main_wrote; try discriminate; apply heavy_numeric|].
  split; [apply heavy_record|].
  destruct (record_of_fields (Some "w"%string) (load_points heavy_inputs)
              (9%Z, heavy_cell)) as (_ & _ & Ha & Hd & Hv).
  cbv zeta in Ha, Hd, Hv. cbn [fst snd] in Ha, Hv.
  assert (Hval : value (record_of (Some "w"%string) (load_points heavy_inputs)
                                  (9%Z, heavy_cell)) = 1e308).
  { rewrite Hv. apply heavy_value. }
  assert (Harea : area_km2 (record_of (Some "w"%string)
                                       (load_points heavy_inputs)
                                       (9%Z, heavy_cell)) =
                  3 * sqrt 3 / 2 / 1000000).
  { rewrite Ha. unfold heavy_cell. rewrite hexagon_area. field. }
  split; [exact Hval|]. split; [exact Harea|].
  rewrite Hd, Hval, Harea.
  pose proof sqrt3_bounds as Hs.
  apply density_cases; [lra|].
  apply heavy_quotient.
Qed.

(** C8 (as the code behaves): the choice between weighted sum and count
    is made once per run, not per point.  When weight_field is set,
    non-empty and names a column of the joined table, every hexagon's
    value is the sum of that column over the points within the hexagon,
    a point that lacks the value contributing 0; otherwise every
    hexagon's value is the number of points within it. *)
Theorem value_is_column_sum_or_count (hex_m : Z) (inputs : list input_file)
    (weight_field : option string) (features : list hex_record) :
  main hex_m inputs weight_field = Wrote features ->
  let pts := load_points inputs in
  (forall name, weighted weight_field pts = Some name <->
     weight_field = Some name /\ name <> ""%string /\
     In name (columns pts ++ structural_columns)) /\
  Forall (fun r =>
    let inside := points_within (rows pts) (geometry r) in
    match weighted weight_field pts with
    | Some name =>
        value r =
          fold_right Rplus 0
            (map (fun p => match joined_attr name (p, hex_id r) with
                           | Some w => w
                           | None => 0
                           end) inside) /\
        (~ In name structural_columns ->
         value r = fold_right Rplus 0 (map (point_weight name) inside))
    | None => value r = INR (List.length inside)
    end) features.
Proof.
  intros Hmain pts. split.
  - intros name. unfold weighted, truthy, joined_columns.
    destruct weight_field as [wf|]; [|split; [discriminate | intros [H _]; discriminate]].
    destruct (String.eqb_spec wf "") as [-> | Hne].
    { split; [discriminate | intros (H & Hn & _); congruence]. }
    destruct (existsb (String.eqb wf) (columns pts ++ structural_columns)) eqn:E.
    + apply existsb_exists in E as [x [Hx Hwx]].
      apply String.eqb_eq in Hwx. subst x.
      split.
      * intros H. injection H as <-. auto.
      * intros (H & _ & _). exact H.
    + split; [discriminate|].
      intros (H & _ & Hin). injection H as <-.
      assert (Ht : existsb (String.eqb wf) (columns pts ++ structural_columns)
                   = true).
      { apply existsb_exists. exists wf. split; [exact Hin|].
        apply String.eqb_refl. }
      congruence.
  - apply wrote_inversion in Hmain as [_ ->]. fold pts.
    rewrite hotspots_records. apply Forall_forall. intros r Hr.
    apply in_map_iff in Hr as [h [<- _]].
    destruct (record_of_fields weight_field pts h) as (Hid & Hg & _ & _ & Hv).
    cbv zeta in Hid, Hg, Hv. cbv zeta. rewrite Hid, Hg, Hv.
    unfold cell_value.
    destruct (weighted weight_field pts) as [name|].
    + rewrite nansum_sum, !map_map. split; [reflexivity|].
      intros Hn. f_equal. apply map_ext.
      intros p. now apply joined_attr_data.
    + now rewrite length_map.
Qed.

Lemma value_is_column_sum_or_count_witness :
  Forall (fun r =>
    value r =
      INR (List.length
             (points_within (rows (load_points (scenario_inputs [] [] [])))
                            (geometry r))))
    (hotspots None (load_points (scenario_inputs [] [] [])) scenario_hexes).
Proof.
  destruct (value_is_column_sum_or_count 2000 (scenario_inputs [] [] []) None _
              (scenario_main [] [] [] None unweighted_run)) as [_ H].
  exact H.
Defined.

(** C8, refuted as stated: the first point carries w = 5, the other two
    carry no w at all, and weight_field is w.  Hexagon 9 holds the first
    and the third point and gets 5 (not 5 + 1); hexagons 5 and 10 each
    hold one point without weight and get 0 (not 1). *)
Lemma missing_weight_adds_nothing :
  let inputs := scenario_inputs [("w"%string, Some 5)] [] [] in
  exists features,
    main 2000 inputs (Some "w"%string) = Wrote features /\
    map value features =
      [0; 0; 0; 0; 0; 0; 0; 0; 0; 5; 0; 0; 0; 0; 0; 0; 0; 0; 0; 0].
Proof.
  intros inputs. unfold inputs.
  eexists. split; [apply scenario_main; discriminate|].
  rewrite (scenario_values [("w"%string, Some 5)] [] [] (Some "w"%string)).
  cbv zeta. unfold cell_value. rewrite scenario_load.
  cbn [weighted truthy String.eqb Ascii.eqb Bool.eqb joined_columns columns
       structural_columns map fst app existsb orb andb].
  cbn [map joined_attr nansum fold_right String.eqb Ascii.eqb Bool.eqb
       orb andb find fst snd pt_props].
  repeat f_equal; lra.
Qed.

(** C9: the exported collection has exactly one record per generated
    hexagon, in generation order; a hexagon without any point keeps
    value 0; hex_id is the dense 0-based row-major index, so the cell at
    (row, col) is record number row * columns + col. *)
Theorem one_record_per_hexagon (hex_m : Z) (inputs : list input_file)
    (weight_field : option string) (features : list hex_record) :
  main hex_m inputs weight_field = Wrote features ->
  let pts := load_points inputs in
  let bounds := total_bounds pts in
  let ncols := n_cols bounds hex_m in
  exists hexes,
    make_hex_grid bounds hex_m = Ok hexes /\
    map geometry features = hexes /\
    map hex_id features = range (Z.of_nat (List.length hexes)) /\
    Forall (fun r => points_within (rows pts) (geometry r) = [] ->
                     value r = 0) features /\
    forall r c, (0 <= r < n_rows bounds hex_m)%Z -> (0 <= c < ncols)%Z ->
      exists rec,
        nth_error features (Z.to_nat (r * ncols + c)) = Some rec /\
        hex_id rec = (r * ncols + c)%Z /\
        geometry rec =
          hexagon (cell_cx (fst (padded_min bounds hex_m))
                           (spacing_dx hex_m) r c)
                  (cell_cy (snd (padded_min bounds hex_m))
                           (spacing_dy hex_m) r)
                  (IZR hex_m).
Proof.
  intros Hmain pts bounds ncols.
  apply wrote_inversion in Hmain as [Hne ->].
  exists (layout_cells bounds hex_m).
  split; [apply make_hex_grid_nonzero; exact Hne|].
  rewrite hotspots_records. fold pts bounds.
  split; [|split; [|split]].
  - rewrite map_map. apply reset_index_snd.
  - rewrite map_map. apply reset_index_fst.
  - apply Forall_forall. intros rec Hrec.
    apply in_map_iff in Hrec as [h [<- _]].
    destruct (record_of_fields weight_field pts h) as (_ & Hg & _ & _ & Hv).
    cbv zeta in Hg, Hv. rewrite Hg, Hv. intros ->.
    apply cell_value_nil.
  - intros r c Hr Hc.
    pose proof (hex_cells_nth_error
                  (fst (padded_min bounds hex_m)) (snd (padded_min bounds hex_m))
                  (spacing_dx hex_m) (spacing_dy hex_m) (IZR hex_m)
                  (n_rows bounds hex_m) ncols r c Hr Hc) as Hnth.
    apply reset_index_nth_error in Hnth.
    eexists. split.
    + apply map_nth_error. exact Hnth.
    + split; [|reflexivity].
      cbn [record_of annotate hex_id fst]. rewrite Z2Nat.id; [reflexivity|nia].
Qed.

Lemma one_record_per_hexagon_witness :
  exists hexes,
    map geometry (hotspots None (load_points (scenario_inputs [] [] []))
                           scenario_hexes) = hexes.
Proof.
  destruct (one_record_per_hexagon 2000 (scenario_inputs [] [] []) None _
              (scenario_main [] [] [] None unweighted_run)) as [hexes [_ [H _]]].
  exists hexes. exact H.
Defined.

(** C10: containment is boundary-exclusive.  A point on the boundary of a
    hexagon polygon is not within it; a point that is on the boundary of,
    or outside, every cell is assigned to no hexagon by the join and is
    among the aggregated points of none, so it contributes to no value. *)
Theorem boundary_point_not_within (q : R * R) (poly : polygon) :
  on_boundary q poly ->
  within q poly = false /\
  forall (pts : list point_row) (hexes : list polygon) (p : point_row),
    pt_xy p = q ->
    (forall g, In g hexes -> on_boundary q g \/ within q g = false) ->
    (forall k, ~ In (p, k) (sjoin pts (reset_index hexes))) /\
    (forall g, In g hexes -> ~ In p (points_within pts g)).
Proof.
  intros Hb. split; [apply within_boundary_false; exact Hb|].
  intros pts hexes p Hp Hall.
  assert (Hno : forall g, In g hexes -> within (pt_xy p) g = false).
  { intros g Hg. rewrite Hp.
    destruct (Hall g Hg) as [Hbg | Hf];
      [apply within_boundary_false; exact Hbg | exact Hf]. }
  split.
  - intros k Hin. apply sjoin_In in Hin as [g [Hg Hw]].
    assert (Hg' : In g hexes).
    { rewrite <- (reset_index_snd hexes).
      change g with (snd (k, g)). now apply in_map. }
    rewrite Hno in Hw by exact Hg'. discriminate.
  - intros g Hg Hin. unfold points_within in Hin.
    apply filter_In in Hin as [_ Hw].
    rewrite Hno in Hw by exact Hg. discriminate.
Qed.

Lemma boundary_point_not_within_witness :
  within (to_wgs (0 + 2000, 0)) (hexagon 0 0 2000) = false.
Proof.
  apply (boundary_point_not_within (to_wgs (0 + 2000, 0)) (hexagon 0 0 2000)).
  exists (to_wgs (0 + 2000, 0), to_wgs (0 + 2000 / 2, 0 + 2000 * sqrt 3 / 2)).
  split.
  - rewrite hexagon_vertices. left. reflexivity.
  - exists 0. split; [split; [apply Rle_refl | apply Rle_0_1]|].
    cbn [fst snd]. rewrite !Rmult_0_l, !Rplus_0_r. reflexivity.
Defined.

(** * Further properties of the code *)

(** ** The projection on valid latitudes *)

Lemma merc_angle (lat : R) :
  -90 < lat < 90 -> 0 < PI / 4 + lat * PI / 180 / 2 < PI / 2.
Proof.
  intros [Hlo Hhi]. pose proof PI_RGT_0 as Hpi.
  split.
  - replace (PI / 4 + lat * PI / 180 / 2) with (PI * ((90 + lat) / 360))
      by field.
    apply Rmult_lt_0_compat; lra.
  - replace (PI / 4 + lat * PI / 180 / 2) with (PI / 2 - PI * ((90 - lat) / 360))
      by field.
    assert (0 < PI * ((90 - lat) / 360)) by (apply Rmult_lt_0_compat; lra).
    lra.
Qed.

Lemma to_wgs_to_merc (lon lat : R) :
  -90 < lat < 90 -> to_wgs (to_merc (lon, lat)) = (lon, lat).
Proof.
  intros Hlat. pose proof (merc_angle lat Hlat) as [Hlo Hhi].
  pose proof PI_RGT_0 as Hpi. pose proof EARTH_RADIUS_pos as Ha.
  unfold to_wgs, to_merc. f_equal.
  - field. split; lra.
  - replace (EARTH_RADIUS * ln (tan (PI / 4 + lat * PI / 180 / 2)) / EARTH_RADIUS)
      with (ln (tan (PI / 4 + lat * PI / 180 / 2))) by (field; lra).
    rewrite exp_ln by (apply tan_gt_0; assumption).
    rewrite atan_tan by (split; lra). field. lra.
Qed.

Lemma to_merc_x_le (lon1 lat1 lon2 lat2 : R) :
  lon1 <= lon2 -> fst (to_merc (lon1, lat1)) <= fst (to_merc (lon2, lat2)).
Proof.
  intros H. unfold to_merc. cbn [fst].
  pose proof PI_RGT_0 as Hpi. pose proof EARTH_RADIUS_pos as Ha.
  apply Rmult_le_compat_l; [lra|].
  unfold Rdiv. apply Rmult_le_compat_r; [lra|].
  apply Rmult_le_compat_r; lra.
Qed.

Lemma to_merc_y_lt (lon1 lat1 lon2 lat2 : R) :
  -90 < lat1 -> lat1 < lat2 -> lat2 < 90 ->
  snd (to_merc (lon1, lat1)) < snd (to_merc (lon2, lat2)).
Proof.
  intros H1 H12 H2. unfold to_merc. cbn [snd].
  pose proof PI_RGT_0 as Hpi. pose proof EARTH_RADIUS_pos as Ha.
  pose proof (merc_angle lat1 (conj H1 (Rlt_trans _ _ _ H12 H2))) as [Ha1 Hb1].
  pose proof (merc_angle lat2 (conj (Rlt_trans _ _ _ H1 H12) H2)) as [Ha2 Hb2].
  apply Rmult_lt_compat_l; [exact Ha|].
  apply ln_increasing; [apply tan_gt_0; assumption|].
  apply tan_increasing; try lra.
  assert (lat1 * PI < lat2 * PI) by (apply Rmult_lt_compat_r; assumption).
  lra.
Qed.

Lemma to_merc_y_le (lon1 lat1 lon2 lat2 : R) :
  -90 < lat1 -> lat1 <= lat2 -> lat2 < 90 ->
  snd (to_merc (lon1, lat1)) <= snd (to_merc (lon2, lat2)).
Proof.
  intros H1 [H12 | ->] H2.
  - left. now apply to_merc_y_lt.
  - right. reflexivity.
Qed.

(** ** Size and extent of the grid *)

Lemma div_gt (k w d : R) : 0 < d -> k * d < w -> k < w / d.
Proof.
  intros Hd H. apply Rmult_lt_reg_r with d; [exact Hd|].
  unfold Rdiv. rewrite Rmult_assoc, Rinv_l by lra. lra.
Qed.

Lemma div_le_div (a b c d : R) :
  0 < b -> 0 < d -> a * d <= c * b -> a / b <= c / d.
Proof.
  intros Hb Hd H.
  apply Rmult_le_reg_r with (b * d); [now apply Rmult_lt_0_compat|].
  replace (a / b * (b * d)) with (a * d) by (field; lra).
  replace (c / d * (b * d)) with (c * b) by (field; lra).
  exact H.
Qed.

Lemma ceil_times (w d : R) : 0 < d -> w <= IZR (Zceil (w / d)) * d.
Proof.
  intros Hd. pose proof (Zceil_bound (w / d)) as [_ Hub].
  replace w with (w / d * d) at 1 by (field; lra).
  apply Rmult_le_compat_r; lra.
Qed.

Lemma padded_extent (bounds : R * R * R * R) (hex_radius_m : Z) :
  proper_bounds bounds ->
  4 * IZR hex_radius_m <=
    fst (padded_max bounds hex_radius_m) - fst (padded_min bounds hex_radius_m)
  /\
  4 * IZR hex_radius_m <=
    snd (padded_max bounds hex_radius_m) - snd (padded_min bounds hex_radius_m).
Proof.
  destruct bounds as [[[minx miny] maxx] maxy].
  intros (Hx & Hlo & Hy & Hhi).
  unfold padded_min, padded_max. cbn [fst snd].
  pose proof (to_merc_x_le minx miny maxx maxy Hx).
  pose proof (to_merc_y_le minx miny maxx maxy Hlo Hy Hhi).
  split; lra.
Qed.

Lemma n_cols_at_least_4 (bounds : R * R * R * R) (hex_radius_m : Z) :
  proper_bounds bounds -> (0 < hex_radius_m)%Z ->
  (4 <= n_cols bounds hex_radius_m)%Z.
Proof.
  intros Hb HR. apply (padded_extent bounds hex_radius_m) in Hb as [Hw _].
  assert (HRr : 0 < IZR hex_radius_m) by (apply IZR_lt; exact HR).
  pose proof sqrt3_bounds as Hs.
  unfold n_cols.
  set (w := fst (padded_max bounds hex_radius_m)
            - fst (padded_min bounds hex_radius_m)) in *.
  assert (Hq : 2 < w / spacing_dx hex_radius_m).
  { unfold spacing_dx. apply div_gt; nra. }
  pose proof (Zceil_bound (w / spacing_dx hex_radius_m)) as [_ Hub].
  assert (H2 : (2 < Zceil (w / spacing_dx hex_radius_m))%Z)
    by (apply lt_IZR; lra).
  lia.
Qed.

Lemma n_rows_at_least_4 (bounds : R * R * R * R) (hex_radius_m : Z) :
  proper_bounds bounds -> (0 < hex_radius_m)%Z ->
  (4 <= n_rows bounds hex_radius_m)%Z.
Proof.
  intros Hb HR. apply (padded_extent bounds hex_radius_m) in Hb as [_ Hh].
  assert (HRr : 0 < IZR hex_radius_m) by (apply IZR_lt; exact HR).
  unfold n_rows.
  set (h := snd (padded_max bounds hex_radius_m)
            - snd (padded_min bounds hex_radius_m)) in *.
  assert (Hq : 2 < h / spacing_dy hex_radius_m).
  { unfold spacing_dy. apply div_gt; nra. }
  pose proof (Zceil_bound (h / spacing_dy hex_radius_m)) as [_ Hub].
  assert (H2 : (2 < Zceil (h / spacing_dy hex_radius_m))%Z)
    by (apply lt_IZR; lra).
  lia.
Qed.

(** The last column and the last row of centres reach the far side of the
    padded box. *)
Lemma last_column_reaches (bounds : R * R * R * R) (hex_radius_m : Z) :
  (0 < hex_radius_m)%Z ->
  fst (padded_max bounds hex_radius_m) <=
  fst (padded_min bounds hex_radius_m)
  + IZR (n_cols bounds hex_radius_m - 1) * spacing_dx hex_radius_m.
Proof.
  intros HR. assert (HRr : 0 < IZR hex_radius_m) by (apply IZR_lt; exact HR).
  pose proof sqrt3_pos as Hs.
  assert (Hd : 0 < spacing_dx hex_radius_m)
    by (unfold spacing_dx; now apply Rmult_lt_0_compat).
  unfold n_cols.
  replace (Zceil ((fst (padded_max bounds hex_radius_m)
                   - fst (padded_min bounds hex_radius_m))
                  / spacing_dx hex_radius_m) + 1 - 1)%Z
    with (Zceil ((fst (padded_max bounds hex_radius_m)
                  - fst (padded_min bounds hex_radius_m))
                 / spacing_dx hex_radius_m)) by lia.
  pose proof (ceil_times (fst (padded_max bounds hex_radius_m)
                          - fst (padded_min bounds hex_radius_m))
                         (spacing_dx hex_radius_m) Hd).
  lra.
Qed.

Lemma last_row_reaches (bounds : R * R * R * R) (hex_radius_m : Z) :
  (0 < hex_radius_m)%Z ->
  snd (padded_max bounds hex_radius_m) <=
  snd (padded_min bounds hex_radius_m)
  + IZR (n_rows bounds hex_radius_m - 1) * spacing_dy hex_radius_m.
Proof.
  intros HR. assert (HRr : 0 < IZR hex_radius_m) by (apply IZR_lt; exact HR).
  assert (Hd : 0 < spacing_dy hex_radius_m) by (unfold spacing_dy; lra).
  unfold n_rows.
  replace (Zceil ((snd (padded_max bounds hex_radius_m)
                   - snd (padded_min bounds hex_radius_m))
                  / spacing_dy hex_radius_m) + 1 - 1)%Z
    with (Zceil ((snd (padded_max bounds hex_radius_m)
                  - snd (padded_min bounds hex_radius_m))
                 / spacing_dy hex_radius_m)) by lia.
  pose proof (ceil_times (snd (padded_max bounds hex_radius_m)
                          - snd (padded_min bounds hex_radius_m))
                         (spacing_dy hex_radius_m) Hd).
  lra.
Qed.

Lemma scenario_bbox_proper : proper_bounds scenario_bbox.
Proof.
  unfold proper_bounds, scenario_bbox.
  assert (H0 : lat_of 0 = 0).
  { pose proof to_wgs_origin as H. rewrite to_wgs_eq in H. now injection H. }
  assert (Hx : lon_of 0 < lon_of 1200) by (apply lon_of_lt; lra).
  assert (Hy : lat_of 0 < lat_of 2000) by (apply lat_of_lt; lra).
  assert (Hhi : lat_of 2000 < 90).
  { unfold lat_of. pose proof PI_RGT_0 as Hpi.
    pose proof (atan_bound (exp (2000 / EARTH_RADIUS))) as [_ Hub].
    apply Rmult_lt_reg_r with (PI / 180); [lra|].
    replace ((2 * atan (exp (2000 / EARTH_RADIUS)) - PI / 2) * 180 / PI
             * (PI / 180))
      with (2 * atan (exp (2000 / EARTH_RADIUS)) - PI / 2) by (field; lra).
    lra. }
  repeat split; lra.
Qed.

(** X1: for a proper bounding box (even a single point) and a positive
    radius [make_hex_grid] never returns an empty or thin grid: it has at
    least 4 rows and 4 columns, hence at least 16 hexagons. *)
Theorem grid_has_sixteen_cells (bounds : R * R * R * R) (hex_radius_m : Z) :
  proper_bounds bounds -> (0 < hex_radius_m)%Z ->
  exists polys,
    make_hex_grid bounds hex_radius_m = Ok polys /\
    (4 <= n_rows bounds hex_radius_m)%Z /\
    (4 <= n_cols bounds hex_radius_m)%Z /\
    List.length polys =
      (Z.to_nat (n_rows bounds hex_radius_m)
       * Z.to_nat (n_cols bounds hex_radius_m))%nat /\
    (16 <= List.length polys)%nat.
Proof.
  intros Hb HR.
  pose proof (n_rows_at_least_4 bounds hex_radius_m Hb HR) as Hr.
  pose proof (n_cols_at_least_4 bounds hex_radius_m Hb HR) as Hc.
  exists (layout_cells bounds hex_radius_m).
  split; [apply make_hex_grid_nonzero; lia|].
  split; [exact Hr|]. split; [exact Hc|].
  unfold layout_cells. rewrite hex_cells_length.
  split; [reflexivity|]. nia.
Qed.

Lemma grid_has_sixteen_cells_witness :
  exists polys,
    make_hex_grid scenario_bbox 2000 = Ok polys /\
    (16 <= List.length polys)%nat.
Proof.
  destruct (grid_has_sixteen_cells scenario_bbox 2000 scenario_bbox_proper
              eq_refl) as [polys (H & _ & _ & _ & Hlen)].
  exists polys. split; [exact H | exact Hlen].
Defined.

Lemma border_cell_outside (bounds : R * R * R * R) (hex_radius_m : Z)
    (q : R * R) (r c : Z) :
  proper_bounds bounds -> (0 < hex_radius_m)%Z -> in_bounds bounds q ->
  (0 <= r < n_rows bounds hex_radius_m)%Z ->
  (0 <= c < n_cols bounds hex_radius_m)%Z ->
  (r = 0 \/ r = n_rows bounds hex_radius_m - 1 \/
   c = 0 \/ c = n_cols bounds hex_radius_m - 1)%Z ->
  within q (hexagon (cell_cx (fst (padded_min bounds hex_radius_m))
                             (spacing_dx hex_radius_m) r c)
                    (cell_cy (snd (padded_min bounds hex_radius_m))
                             (spacing_dy hex_radius_m) r)
                    (IZR hex_radius_m)) = false.
Proof.
  intros Hb HR Hq Hr Hc Hborder.
  set (nrows := n_rows bounds hex_radius_m) in *.
  set (ncols := n_cols bounds hex_radius_m) in *.
  assert (HRr : 0 < IZR hex_radius_m) by (apply IZR_lt; exact HR).
  pose proof sqrt3_bounds as Hs.
  pose proof (last_column_reaches bounds hex_radius_m HR) as Hlastc.
  pose proof (last_row_reaches bounds hex_radius_m HR) as Hlastr.
  fold ncols in Hlastc. fold nrows in Hlastr.
  destruct bounds as [[[minx miny] maxx] maxy].
  destruct Hb as (Hx & Hlo & Hy & Hhi).
  destruct q as [lon lat]. destruct Hq as [[Hq1 Hq2] [Hq3 Hq4]].
  cbn [fst snd] in Hq1, Hq2, Hq3, Hq4.
  assert (Hlat : -90 < lat < 90) by lra.
  rewrite <- (to_wgs_to_merc lon lat Hlat).
  pose proof (to_merc_x_le minx miny lon lat Hq1) as Hx0.
  pose proof (to_merc_x_le lon lat maxx maxy Hq2) as Hx1.
  assert (Hy0 : snd (to_merc (minx, miny)) <= snd (to_merc (lon, lat)))
    by (apply to_merc_y_le; lra).
  assert (Hy1 : snd (to_merc (lon, lat)) <= snd (to_merc (maxx, maxy)))
    by (apply to_merc_y_le; lra).
  destruct (to_merc (lon, lat)) as [x y] eqn:Exy.
  unfold padded_min, padded_max in *. cbn [fst snd] in *.
  unfold spacing_dx, spacing_dy in *.
  assert (Hoff : 0 <= (if Z.odd r then IZR hex_radius_m * sqrt 3 / 2 else 0)
                 <= IZR hex_radius_m * sqrt 3 / 2)
    by (destruct (Z.odd r); nra).
  destruct Hborder as [-> | [-> | [-> | ->]]].
  - apply outside_far_y; [exact HRr|]. left. unfold cell_cy. nra.
  - apply outside_far_y; [exact HRr|]. right. unfold cell_cy. nra.
  - apply outside_far_x; [exact HRr|]. right. unfold cell_cx. nra.
  - apply outside_far_x; [exact HRr|]. left. unfold cell_cx.
    assert (Hc0 : 0 <= IZR (ncols - 1)) by (apply IZR_le; lia).
    nra.
Qed.

(** X2: the padding keeps the data off the rim of the grid.  For a proper
    bounding box and a positive radius, no point of the unpadded box is
    within a cell of the first or last row or of the first or last
    column. *)
Theorem border_cells_hold_no_point (bounds : R * R * R * R)
    (hex_radius_m : Z) (q : R * R) :
  proper_bounds bounds -> (0 < hex_radius_m)%Z -> in_bounds bounds q ->
  let nrows := n_rows bounds hex_radius_m in
  let ncols := n_cols bounds hex_radius_m in
  exists polys,
    make_hex_grid bounds hex_radius_m = Ok polys /\
    forall r c g,
      (0 <= r < nrows)%Z -> (0 <= c < ncols)%Z ->
      (r = 0 \/ r = nrows - 1 \/ c = 0 \/ c = ncols - 1)%Z ->
      nth_error polys (Z.to_nat (r * ncols + c)) = Some g ->
      within q g = false.
Proof.
  intros Hb HR Hq nrows ncols.
  exists (layout_cells bounds hex_radius_m).
  split; [apply make_hex_grid_nonzero; lia|].
  intros r c g Hr Hc Hborder Hg.
  unfold layout_cells in Hg. fold nrows ncols in Hg.
  rewrite hex_cells_nth_error in Hg by assumption.
  injection Hg as <-.
  now apply border_cell_outside.
Qed.

Lemma border_cells_hold_no_point_witness :
  exists polys, make_hex_grid scenario_bbox 2000 = Ok polys.
Proof.
  destruct (border_cells_hold_no_point scenario_bbox 2000
              (lon_of 0, lat_of 0) scenario_bbox_proper eq_refl)
    as [polys [H _]].
  - pose proof scenario_bbox_proper as (Hx & _ & Hy & _).
    unfold in_bounds, scenario_bbox. cbn [fst snd].
    repeat split; try apply Rle_refl; assumption.
  - exists polys. exact H.
Defined.

(** X3: a larger radius never gives more hexagons.  For a proper bounding
    box and positive radii R1 <= R2, the grid for R2 has at most as many
    rows, columns and cells as the grid for R1. *)
Theorem larger_radius_fewer_cells (bounds : R * R * R * R) (r1 r2 : Z) :
  proper_bounds bounds -> (0 < r1)%Z -> (r1 <= r2)%Z ->
  (n_rows bounds r2 <= n_rows bounds r1)%Z /\
  (n_cols bounds r2 <= n_cols bounds r1)%Z /\
  exists polys1 polys2,
    make_hex_grid bounds r1 = Ok polys1 /\
    make_hex_grid bounds r2 = Ok polys2 /\
    (List.length polys2 <= List.length polys1)%nat.
Proof.
  intros Hb H1 H12.
  assert (HR1 : 0 < IZR r1) by (apply IZR_lt; exact H1).
  assert (HR12 : IZR r1 <= IZR r2) by (apply IZR_le; exact H12).
  pose proof sqrt3_pos as Hs.
  assert (Hrows : (n_rows bounds r2 <= n_rows bounds r1)%Z).
  { unfold n_rows. apply Z.add_le_mono_r. apply Zceil_le.
    destruct bounds as [[[minx miny] maxx] maxy].
    destruct Hb as (Hx & Hlo & Hy & Hhi).
    pose proof (to_merc_y_le minx miny maxx maxy Hlo Hy Hhi) as Hd.
    unfold padded_min, padded_max, spacing_dy. cbn [fst snd].
    apply div_le_div; nra. }
  assert (Hcols : (n_cols bounds r2 <= n_cols bounds r1)%Z).
  { unfold n_cols. apply Z.add_le_mono_r. apply Zceil_le.
    destruct bounds as [[[minx miny] maxx] maxy].
    destruct Hb as (Hx & Hlo & Hy & Hhi).
    pose proof (to_merc_x_le minx miny maxx maxy Hx) as Hd.
    unfold padded_min, padded_max, spacing_dx. cbn [fst snd].
    apply div_le_div; [nra | nra |].
    set (d := fst (to_merc (maxx, maxy)) - fst (to_merc (minx, miny))).
    assert (Hp : 0 <= sqrt 3 * (d * (IZR r2 - IZR r1))).
    { apply Rmult_le_pos; [lra|]. apply Rmult_le_pos; unfold d; lra. }
    apply Rminus_le. unfold d in Hp.
    match goal with
    | |- ?l - ?r <= 0 =>
        replace (l - r)
          with (- (sqrt 3 * ((fst (to_merc (maxx, maxy))
                              - fst (to_merc (minx, miny)))
                             * (IZR r2 - IZR r1)))) by ring
    end.
    lra. }
  split; [exact Hrows|]. split; [exact Hcols|].
  exists (layout_cells bounds r1), (layout_cells bounds r2).
  split; [apply make_hex_grid_nonzero; lia|].
  split; [apply make_hex_grid_nonzero; lia|].
  unfold layout_cells. rewrite !hex_cells_length.
  apply Nat.mul_le_mono; apply Z2Nat.inj_le; try assumption.
  - pose proof (n_rows_at_least_4 bounds r2 Hb ltac:(lia)). lia.
  - pose proof (n_rows_at_least_4 bounds r1 Hb H1). lia.
  - pose proof (n_cols_at_least_4 bounds r2 Hb ltac:(lia)). lia.
  - pose proof (n_cols_at_least_4 bounds r1 Hb H1). lia.
Qed.

Lemma larger_radius_fewer_cells_witness :
  (n_rows scenario_bbox 4000 <= n_rows scenario_bbox 2000)%Z.
Proof.
  destruct (larger_radius_fewer_cells scenario_bbox 2000 4000
              scenario_bbox_proper eq_refl) as [H _].
  - discriminate.
  - exact H.
Defined.

(** ** Shape and mutual position of the cells *)

Lemma hexagon_length (cx cy Rr : R) : List.length (hexagon cx cy Rr) = 6%nat.
Proof. unfold hexagon. now rewrite length_map, length_seq. Qed.

(** X4: for a positive radius every polygon that [make_hex_grid] returns
    is a ring of exactly six vertices that is strictly convex and
    counter-clockwise, hence a simple hexagon. *)
Theorem generated_rings_are_convex (bounds : R * R * R * R)
    (hex_radius_m : Z) :
  (0 < hex_radius_m)%Z ->
  exists polys,
    make_hex_grid bounds hex_radius_m = Ok polys /\
    Forall (fun g => List.length g = 6%nat /\ strictly_convex_ccw g) polys.
Proof.
  intros HR. exists (layout_cells bounds hex_radius_m).
  split; [apply make_hex_grid_nonzero; lia|].
  apply Forall_forall. intros g Hg. unfold layout_cells in Hg.
  destruct (hex_cells_In _ _ _ _ _ _ _ _ Hg) as [cx [cy ->]].
  split; [apply hexagon_length|].
  intros i v Hv. rewrite hexagon_length.
  assert (Hi : (i < 6)%nat).
  { rewrite <- (hexagon_length cx cy (IZR hex_radius_m)).
    apply nth_error_Some. congruence. }
  assert (Hvi : v = to_wgs (hex_vertex_m cx cy (IZR hex_radius_m) i)).
  { unfold hexagon in Hv. rewrite nth_error_map, nth_error_seq in Hv.
    apply Nat.ltb_lt in Hi. rewrite Hi in Hv.
    cbn [option_map Nat.add] in Hv. symmetry. now injection Hv. }
  rewrite Hvi.
  apply hexagon_strictly_convex; [apply IZR_lt; exact HR | exact Hi].
Qed.

Lemma generated_rings_are_convex_witness :
  exists polys,
    make_hex_grid scenario_bbox 2000 = Ok polys /\
    Forall (fun g => List.length g = 6%nat) polys.
Proof.
  destruct (generated_rings_are_convex scenario_bbox 2000 eq_refl)
    as [polys [H Hall]].
  exists polys. split; [exact H|].
  eapply Forall_impl; [|exact Hall]. intros g [Hlen _]. exact Hlen.
Defined.

Lemma cell_cx_next (minx_m dx : R) (r c : Z) :
  cell_cx minx_m dx r (c + 1) = cell_cx minx_m dx r c + dx.
Proof. unfold cell_cx. rewrite plus_IZR. ring. Qed.

(** X5: in every grid built for a positive radius any two cells that are
    neighbours in a row overlap: the point half-way between their centres
    is within both polygons. *)
Theorem row_neighbours_overlap (bounds : R * R * R * R) (hex_radius_m : Z) :
  (0 < hex_radius_m)%Z ->
  let nrows := n_rows bounds hex_radius_m in
  let ncols := n_cols bounds hex_radius_m in
  exists polys,
    make_hex_grid bounds hex_radius_m = Ok polys /\
    forall r c,
      (0 <= r < nrows)%Z -> (0 <= c)%Z -> (c + 1 < ncols)%Z ->
      exists q g1 g2,
        nth_error polys (Z.to_nat (r * ncols + c)) = Some g1 /\
        nth_error polys (Z.to_nat (r * ncols + (c + 1))) = Some g2 /\
        within q g1 = true /\ within q g2 = true.
Proof.
  intros HR nrows ncols.
  exists (layout_cells bounds hex_radius_m).
  split; [apply make_hex_grid_nonzero; lia|].
  intros r c Hr Hc0 Hc1. unfold layout_cells. fold nrows ncols.
  assert (HRr : 0 < IZR hex_radius_m) by (apply IZR_lt; exact HR).
  set (cx := cell_cx (fst (padded_min bounds hex_radius_m))
                     (spacing_dx hex_radius_m) r c).
  set (cy := cell_cy (snd (padded_min bounds hex_radius_m))
                     (spacing_dy hex_radius_m) r).
  exists (to_wgs (cx + IZR hex_radius_m * sqrt 3 / 2, cy)).
  exists (hexagon cx cy (IZR hex_radius_m)).
  exists (hexagon (cx + IZR hex_radius_m * sqrt 3) cy (IZR hex_radius_m)).
  split; [apply hex_cells_nth_error; lia|].
  split.
  - rewrite hex_cells_nth_error by lia. rewrite cell_cx_next. reflexivity.
  - apply (neighbouring_cells_overlap cx cy (IZR hex_radius_m) HRr).
Qed.

Lemma row_neighbours_overlap_witness :
  exists q g1 g2,
    nth_error scenario_hexes 9 = Some g1 /\
    nth_error scenario_hexes 10 = Some g2 /\
    within q g1 = true /\ within q g2 = true.
Proof.
  destruct (row_neighbours_overlap scenario_bbox 2000 eq_refl)
    as [polys [Hgrid Hover]].
  rewrite make_hex_grid_nonzero, scenario_layout in Hgrid by discriminate.
  injection Hgrid as <-.
  rewrite scenario_n_rows, scenario_n_cols in Hover.
  apply (Hover 2%Z 1%Z);
    [split; [discriminate | reflexivity] | discriminate | reflexivity].
Defined.

(** X6: cells are centred apart.  In a grid built for a positive radius
    the centre of the cell at (r, c) is within the polygon of the cell at
    (r', c') exactly when (r', c') = (r, c): a point at a cell centre is
    assigned to that hexagon and to no other. *)
Theorem centre_within_own_cell_only (bounds : R * R * R * R)
    (hex_radius_m : Z) :
  (0 < hex_radius_m)%Z ->
  let nrows := n_rows bounds hex_radius_m in
  let ncols := n_cols bounds hex_radius_m in
  let centre r c :=
    to_wgs (cell_cx (fst (padded_min bounds hex_radius_m))
                    (spacing_dx hex_radius_m) r c,
            cell_cy (snd (padded_min bounds hex_radius_m))
                    (spacing_dy hex_radius_m) r) in
  exists polys,
    make_hex_grid bounds hex_radius_m = Ok polys /\
    forall r c r' c' g,
      (0 <= r' < nrows)%Z -> (0 <= c' < ncols)%Z ->
      nth_error polys (Z.to_nat (r' * ncols + c')) = Some g ->
      (within (centre r c) g = true <-> r' = r /\ c' = c).
Proof.
  intros HR nrows ncols centre.
  exists (layout_cells bounds hex_radius_m).
  split; [apply make_hex_grid_nonzero; lia|].
  intros r c r' c' g Hr' Hc' Hg.
  unfold layout_cells in Hg. fold nrows ncols in Hg.
  rewrite hex_cells_nth_error in Hg by assumption. injection Hg as <-.
  assert (HRr : 0 < IZR hex_radius_m) by (apply IZR_lt; exact HR).
  pose proof sqrt3_bounds as Hs.
  unfold centre. set (px := fst (padded_min bounds hex_radius_m)).
  set (py := snd (padded_min bounds hex_radius_m)).
  split.
  - intros Hin.
    destruct (Z.eq_dec r' r) as [-> | Hne].
    + split; [reflexivity|].
      destruct (Z.eq_dec c' c) as [-> | Hnc]; [reflexivity|].
      exfalso.
      rewrite outside_far_x in Hin; [discriminate | exact HRr |].
      unfold cell_cx, spacing_dx.
      assert (Hd : IZR hex_radius_m <= IZR hex_radius_m * sqrt 3) by nra.
      destruct (Z.lt_total c c') as [Hlt | [Heq | Hgt]]; [| congruence |].
      * left. assert (H1 : IZR c + 1 <= IZR c')
          by (rewrite <- plus_IZR; apply IZR_le; lia).
        assert (H2 : (IZR c + 1) * (IZR hex_radius_m * sqrt 3)
                     <= IZR c' * (IZR hex_radius_m * sqrt 3))
          by (apply Rmult_le_compat_r; lra).
        lra.
      * right. assert (H1 : IZR c' + 1 <= IZR c)
          by (rewrite <- plus_IZR; apply IZR_le; lia).
        assert (H2 : (IZR c' + 1) * (IZR hex_radius_m * sqrt 3)
                     <= IZR c * (IZR hex_radius_m * sqrt 3))
          by (apply Rmult_le_compat_r; lra).
        lra.
    + exfalso.
      rewrite outside_far_y in Hin; [discriminate | exact HRr |].
      unfold cell_cy, spacing_dy.
      destruct (Z.lt_total r r') as [Hlt | [Heq | Hgt]]; [| congruence |].
      * right. assert (H1 : IZR r + 1 <= IZR r')
          by (rewrite <- plus_IZR; apply IZR_le; lia).
        assert (H2 : (IZR r + 1) * (IZR hex_radius_m * 1.5)
                     <= IZR r' * (IZR hex_radius_m * 1.5))
          by (apply Rmult_le_compat_r; lra).
        nra.
      * left. assert (H1 : IZR r' + 1 <= IZR r)
          by (rewrite <- plus_IZR; apply IZR_le; lia).
        assert (H2 : (IZR r' + 1) * (IZR hex_radius_m * 1.5)
                     <= IZR r * (IZR hex_radius_m * 1.5))
          by (apply Rmult_le_compat_r; lra).
        nra.
  - intros [-> ->]. apply within_center_line; [exact HRr|]. lra.
Qed.

Lemma centre_within_own_cell_only_witness :
  exists polys, make_hex_grid scenario_bbox 2000 = Ok polys.
Proof.
  destruct (centre_within_own_cell_only scenario_bbox 2000 eq_refl)
    as [polys [H _]].
  exists polys. exact H.
Defined.

(** ** What the aggregation conserves *)

Lemma Rsum_app (l1 l2 : list R) : Rsum (l1 ++ l2) = Rsum l1 + Rsum l2.
Proof.
  unfold Rsum. induction l1 as [|x l1 IH]; cbn [app fold_right]; [lra|].
  rewrite IH. lra.
Qed.

Lemma Rsum_flat_map {A B : Type} (f : A -> list B) (g : B -> R) (l : list A) :
  Rsum (map g (flat_map f l)) = Rsum (map (fun a => Rsum (map g (f a))) l).
Proof.
  induction l as [|a l IH]; [reflexivity|].
  cbn [flat_map map]. rewrite map_app, Rsum_app, IH. reflexivity.
Qed.

Lemma Rsum_filter {A : Type} (p : A -> bool) (g : A -> R) (l : list A) :
  Rsum (map g (filter p l)) = Rsum (map (fun a => if p a then g a else 0) l).
Proof.
  unfold Rsum. induction l as [|a l IH]; [reflexivity|].
  cbn [filter map fold_right]. destruct (p a); cbn [map fold_right];
    rewrite IH; lra.
Qed.

Lemma Rsum_plus {A : Type} (g h : A -> R) (l : list A) :
  Rsum (map (fun a => g a + h a) l) = Rsum (map g l) + Rsum (map h l).
Proof.
  unfold Rsum. induction l as [|a l IH]; cbn [map fold_right]; [lra|].
  rewrite IH. lra.
Qed.

Lemma Rsum_zero {A : Type} (l : list A) : Rsum (map (fun _ => 0) l) = 0.
Proof.
  unfold Rsum. induction l as [|a l IH]; cbn [map fold_right]; [reflexivity|].
  rewrite IH. lra.
Qed.

Lemma Rsum_ext {A : Type} (g h : A -> R) (l : list A) :
  (forall a, g a = h a) -> Rsum (map g l) = Rsum (map h l).
Proof. intros H. f_equal. apply map_ext. exact H. Qed.

(** Two nested sums over lists may be exchanged. *)
Lemma Rsum_swap {A B : Type} (g : A -> B -> R) (la : list A) (lb : list B) :
  Rsum (map (fun a => Rsum (map (g a) lb)) la) =
  Rsum (map (fun b => Rsum (map (fun a => g a b) la)) lb).
Proof.
  induction la as [|a la IH].
  - cbn [map]. rewrite Rsum_zero. reflexivity.
  - cbn [map]. change (Rsum (?x :: ?l)) with (x + Rsum l).
    rewrite IH.
    rewrite <- (Rsum_plus (g a)
                  (fun b => Rsum (map (fun a' => g a' b) la)) lb).
    reflexivity.
Qed.

Lemma cell_value_sum (weight_field : option string) (pts : frame)
    (l : list (point_row * Z)) :
  cell_value weight_field pts l =
  Rsum (map (row_contribution weight_field pts) l).
Proof.
  unfold cell_value, row_contribution.
  destruct (weighted weight_field pts) as [name|].
  - rewrite nansum_sum, map_map. reflexivity.
  - unfold Rsum. induction l as [|x l IH]; [reflexivity|].
    cbn [List.length map fold_right]. rewrite S_INR, IH. lra.
Qed.

(** X7: what the aggregation conserves.  The values of all exported
    hexagons add up to the aggregate of the whole join table: the number
    of (point, hexagon) matches when points are counted, the sum of the
    weights over those matches in the weighted branch.  Grouping and the
    left merge neither lose nor duplicate a row of the join. *)
Theorem total_value_is_join_total (weight_field : option string)
    (pts : frame) (hexes : list polygon) :
  total_value (hotspots weight_field pts hexes) =
  cell_value weight_field pts (sjoin (rows pts) (reset_index hexes)) /\
  (weighted weight_field pts = None ->
   total_value (hotspots weight_field pts hexes) =
   INR (List.length (sjoin (rows pts) (reset_index hexes)))).
Proof.
  assert (Htot : total_value (hotspots weight_field pts hexes) =
                 cell_value weight_field pts
                   (sjoin (rows pts) (reset_index hexes))).
  { unfold total_value. rewrite hotspots_records, map_map.
    set (f := row_contribution weight_field pts).
    set (hex_gdf := reset_index hexes).
    change (fold_right Rplus 0
              (map (fun h => value (record_of weight_field pts h)) hex_gdf))
      with (Rsum (map (fun h => value (record_of weight_field pts h)) hex_gdf)).
    rewrite (Rsum_ext _
               (fun h => Rsum (map (fun p => if within (pt_xy p) (snd h)
                                             then f (p, fst h) else 0)
                                   (rows pts)))).
    2:{ intros h.
        destruct (record_of_fields weight_field pts h) as (_ & _ & _ & _ & Hv).
        cbv zeta in Hv. rewrite Hv, cell_value_sum, map_map.
        unfold points_within.
        apply (Rsum_filter (fun p => within (pt_xy p) (snd h))
                           (fun p => f (p, fst h))). }
    rewrite cell_value_sum. fold f. unfold sjoin.
    rewrite Rsum_flat_map.
    rewrite (Rsum_swap (fun h p => if within (pt_xy p) (snd h)
                                   then f (p, fst h) else 0)).
    apply Rsum_ext. intros p. rewrite Rsum_flat_map.
    apply Rsum_ext. intros h.
    destruct (within (pt_xy p) (snd h)); unfold Rsum; cbn [map fold_right]; lra. }
  split; [exact Htot|].
  intros Hw. rewrite Htot. unfold cell_value. now rewrite Hw.
Qed.

Lemma total_value_is_join_total_witness :
  total_value (hotspots None (load_points (scenario_inputs [] [] []))
                        scenario_hexes) =
  INR (List.length
         (sjoin (rows (load_points (scenario_inputs [] [] [])))
                (reset_index scenario_hexes))).
Proof.
  apply (proj2 (total_value_is_join_total None
                  (load_points (scenario_inputs [] [] [])) scenario_hexes)).
  reflexivity.
Defined.

Lemma FLOAT64_OVERFLOW_large : 1e308 <= FLOAT64_OVERFLOW.
Proof.
  replace 1e308 with (IZR (10 ^ 308)) by lra.
  unfold FLOAT64_OVERFLOW. apply IZR_le. apply Z.leb_le.
  vm_compute. reflexivity.
Qed.

Lemma nonzero_square (n : Z) : n <> 0%Z -> 1 <= IZR n * IZR n.
Proof.
  intros Hn. rewrite <- mult_IZR. apply IZR_le. nia.
Qed.

Lemma count_quotient_in_range (v a : R) :
  0 <= v <= 1e300 -> 3 * sqrt 3 / 2 / 1000000 <= a ->
  v / a < FLOAT64_OVERFLOW.
Proof.
  intros Hv Ha. pose proof sqrt3_bounds as Hs.
  pose proof FLOAT64_OVERFLOW_large as Hov.
  assert (Hpos : 0 < a) by lra.
  apply Rmult_lt_reg_r with a; [exact Hpos|].
  replace (v / a * a) with v by (field; lra).
  apply Rlt_le_trans with (1e308 * (2 / 1000000)); [lra|].
  apply Rmult_le_compat; lra.
Qed.

(** X8: when points are counted (no weight field, or one that is empty or
    names no column), every exported record of a run that wrote its
    output has a whole, non-negative value bounded by the number of
    loaded points and a strictly positive area, whatever the sign of the
    radius; its density is never NaN or negative, and it is finite as
    long as no more than 1e300 points are loaded. *)
Theorem counts_are_bounded_and_nonnegative (hex_m : Z)
    (inputs : list input_file) (weight_field : option string)
    (features : list hex_record) :
  main hex_m inputs weight_field = Wrote features ->
  weighted weight_field (load_points inputs) = None ->
  Forall (fun r =>
    (exists n : nat,
       value r = INR n /\
       (n <= List.length (rows (load_points inputs)))%nat) /\
    0 <= value r /\
    0 < area_km2 r /\
    (density_per_km2 r = PosInf \/
     exists d, density_per_km2 r = Finite d /\ 0 <= d) /\
    (INR (List.length (rows (load_points inputs))) <= 1e300 ->
     exists d, density_per_km2 r = Finite d /\ 0 <= d)) features.
Proof.
  intros Hmain Hw. apply wrote_inversion in Hmain as [Hne ->].
  rewrite hotspots_records. apply Forall_forall. intros r Hr.
  apply in_map_iff in Hr as [h [<- Hh]].
  destruct (record_of_fields weight_field (load_points inputs) h)
    as (_ & _ & Ha & Hd & Hv).
  cbv zeta in Ha, Hd, Hv.
  assert (Hval : value (record_of weight_field (load_points inputs) h) =
                 INR (List.length
                        (points_within (rows (load_points inputs)) (snd h)))).
  { rewrite Hv. unfold cell_value. rewrite Hw. now rewrite length_map. }
  assert (Hg : In (snd h)
                  (layout_cells (total_bounds (load_points inputs)) hex_m)).
  { rewrite <- (reset_index_snd (layout_cells _ hex_m)). now apply in_map. }
  unfold layout_cells in Hg.
  destruct (hex_cells_In _ _ _ _ _ _ _ _ Hg) as [cx [cy Hcell]].
  rewrite Hcell, hexagon_area in Ha.
  assert (HRr : IZR hex_m <> 0) by (apply not_0_IZR; exact Hne).
  pose proof sqrt3_pos as Hs.
  assert (Hsq : 0 < IZR hex_m * IZR hex_m) by nra.
  assert (Hpos : 0 < area_km2 (record_of weight_field (load_points inputs) h)).
  { rewrite Ha. apply Rdiv_lt_0_compat; [|lra].
    apply Rmult_lt_0_compat; lra. }
  assert (Hnn : 0 <= value (record_of weight_field (load_points inputs) h))
    by (rewrite Hval; apply pos_INR).
  assert (Hlen : (List.length
                    (points_within (rows (load_points inputs)) (snd h))
                  <= List.length (rows (load_points inputs)))%nat)
    by (unfold points_within; apply filter_length_le).
  destruct (density_nonnegative _ _ Hnn Hpos) as [Hsign Hfinite].
  split; [|split; [exact Hnn | split; [exact Hpos|]]].
  - eexists. split; [exact Hval | exact Hlen].
  - rewrite Hd. split; [exact Hsign|].
    intros Hfew. apply Hfinite. apply count_quotient_in_range.
    + split; [exact Hnn|]. rewrite Hval.
      apply Rle_trans with (INR (List.length (rows (load_points inputs))));
        [apply le_INR; exact Hlen | exact Hfew].
    + rewrite Ha. pose proof (nonzero_square hex_m Hne) as Hone. nra.
Qed.

Lemma counts_are_bounded_and_nonnegative_witness :
  Forall (fun r => 0 <= value r)
         (hotspots None (load_points (scenario_inputs [] [] []))
                   scenario_hexes).
Proof.
  pose proof (counts_are_bounded_and_nonnegative 2000
                (scenario_inputs [] [] []) None _
                (scenario_main [] [] [] None unweighted_run) eq_refl) as H.
  eapply Forall_impl; [|exact H].
  intros r (_ & Hnn & _). exact Hnn.
Defined.

(** ** The order of the inputs *)

Lemma fold_min_spec (l : list R) (x : R) :
  In (fold_left Rmin l x) (x :: l) /\
  forall y, In y (x :: l) -> fold_left Rmin l x <= y.
Proof.
  revert x. induction l as [|a l IH]; intros x.
  - cbn. split; [left; reflexivity|]. intros y [<- | []]. apply Rle_refl.
  - cbn [fold_left]. destruct (IH (Rmin x a)) as [Hin Hlb]. split.
    + destruct Hin as [Heq | Hin]; [|right; right; exact Hin].
      rewrite <- Heq. unfold Rmin. destruct (Rle_dec x a);
        [left | right; left]; reflexivity.
    + intros y [<- | [<- | Hy]].
      * eapply Rle_trans; [apply Hlb; left; reflexivity | apply Rmin_l].
      * eapply Rle_trans; [apply Hlb; left; reflexivity | apply Rmin_r].
      * apply Hlb. right. exact Hy.
Qed.

Lemma fold_max_spec (l : list R) (x : R) :
  In (fold_left Rmax l x) (x :: l) /\
  forall y, In y (x :: l) -> y <= fold_left Rmax l x.
Proof.
  revert x. induction l as [|a l IH]; intros x.
  - cbn. split; [left; reflexivity|]. intros y [<- | []]. apply Rle_refl.
  - cbn [fold_left]. destruct (IH (Rmax x a)) as [Hin Hub]. split.
    + destruct Hin as [Heq | Hin]; [|right; right; exact Hin].
      rewrite <- Heq. unfold Rmax. destruct (Rle_dec x a);
        [right; left | left]; reflexivity.
    + intros y [<- | [<- | Hy]].
      * eapply Rle_trans; [apply Rmax_l | apply Hub; left; reflexivity].
      * eapply Rle_trans; [apply Rmax_r | apply Hub; left; reflexivity].
      * apply Hub. right. exact Hy.
Qed.

Lemma fold_min_perm (l l' : list R) (x x' : R) :
  Permutation (x :: l) (x' :: l') ->
  fold_left Rmin l x = fold_left Rmin l' x'.
Proof.
  intros Hp.
  destruct (fold_min_spec l x) as [Hin Hlb].
  destruct (fold_min_spec l' x') as [Hin' Hlb'].
  apply Rle_antisym.
  - apply Hlb. apply (Permutation_in _ (Permutation_sym Hp)). exact Hin'.
  - apply Hlb'. apply (Permutation_in _ Hp). exact Hin.
Qed.

Lemma fold_max_perm (l l' : list R) (x x' : R) :
  Permutation (x :: l) (x' :: l') ->
  fold_left Rmax l x = fold_left Rmax l' x'.
Proof.
  intros Hp.
  destruct (fold_max_spec l x) as [Hin Hub].
  destruct (fold_max_spec l' x') as [Hin' Hub'].
  apply Rle_antisym.
  - apply Hub'. apply (Permutation_in _ Hp). exact Hin.
  - apply Hub. apply (Permutation_in _ (Permutation_sym Hp)). exact Hin'.
Qed.

Lemma total_bounds_perm (pts pts' : frame) :
  Permutation (rows pts) (rows pts') -> total_bounds pts = total_bounds pts'.
Proof.
  intros Hp. unfold total_bounds.
  apply (Permutation_map pt_xy) in Hp.
  destruct (map pt_xy (rows pts)) as [|[x y] rest];
    destruct (map pt_xy (rows pts')) as [|[x' y'] rest'].
  - reflexivity.
  - apply Permutation_nil in Hp. discriminate.
  - apply Permutation_sym, Permutation_nil in Hp. discriminate.
  - pose proof (Permutation_map fst Hp) as Hx.
    pose proof (Permutation_map snd Hp) as Hy.
    cbn [map fst snd] in Hx, Hy.
    rewrite (fold_min_perm _ _ _ _ Hx), (fold_min_perm _ _ _ _ Hy),
            (fold_max_perm _ _ _ _ Hx), (fold_max_perm _ _ _ _ Hy).
    reflexivity.
Qed.

Lemma Rsum_perm (l l' : list R) : Permutation l l' -> Rsum l = Rsum l'.
Proof.
  unfold Rsum. induction 1; cbn [fold_right]; lra.
Qed.

Lemma filter_perm {A : Type} (p : A -> bool) (l l' : list A) :
  Permutation l l' -> Permutation (filter p l) (filter p l').
Proof.
  induction 1 as [| x l l' _ IH | x y l | l l' l'' _ IH1 _ IH2].
  - constructor.
  - cbn [filter]. destruct (p x); [constructor|]; exact IH.
  - cbn [filter]. destruct (p x), (p y);
      try apply Permutation_refl; constructor.
  - eapply Permutation_trans; eassumption.
Qed.

Lemma existsb_same_elements {A : Type} (p : A -> bool) (l l' : list A) :
  (forall a, In a l <-> In a l') -> existsb p l = existsb p l'.
Proof.
  intros H. apply eq_true_iff_eq. rewrite !existsb_exists.
  split; intros [a [Ha Hpa]]; exists a; split; try assumption; now apply H.
Qed.

Lemma weighted_same_columns (weight_field : option string) (pts pts' : frame) :
  Permutation (columns pts) (columns pts') ->
  weighted weight_field pts = weighted weight_field pts'.
Proof.
  intros Hp. unfold weighted, joined_columns.
  destruct (truthy weight_field) as [name|]; [|reflexivity].
  rewrite (existsb_same_elements (String.eqb name)
             (columns pts ++ structural_columns)
             (columns pts' ++ structural_columns)); [reflexivity|].
  intros a. rewrite !in_app_iff. split; intros [Ha | Ha]; auto; left.
  - now apply (Permutation_in _ Hp).
  - now apply (Permutation_in _ (Permutation_sym Hp)).
Qed.

(** Reordering the points or the columns of a frame changes nothing in
    what is computed from it. *)
Lemma hotspots_perm (weight_field : option string) (pts pts' : frame)
    (hexes : list polygon) :
  Permutation (rows pts) (rows pts') ->
  Permutation (columns pts) (columns pts') ->
  hotspots weight_field pts hexes = hotspots weight_field pts' hexes.
Proof.
  intros Hr Hc. rewrite !hotspots_records. apply map_ext. intros h.
  unfold record_of. do 3 f_equal.
  rewrite !cell_value_sum. unfold row_contribution.
  rewrite (weighted_same_columns weight_field pts pts' Hc).
  apply Rsum_perm. do 2 apply Permutation_map.
  unfold points_within. now apply filter_perm.
Qed.

Lemma load_points_perm (inputs inputs' : list input_file) :
  Permutation inputs inputs' ->
  Permutation (rows (load_points inputs)) (rows (load_points inputs')) /\
  Permutation (columns (load_points inputs)) (columns (load_points inputs')).
Proof.
  intros Hp. unfold load_points. cbn [rows columns].
  split; apply Permutation_flat_map; now apply Permutation_flat_map.
Qed.

Lemma existsb_pointwise {A : Type} (p p' : A -> bool) (l : list A) :
  (forall a, p a = p' a) -> existsb p l = existsb p' l.
Proof.
  intros H. induction l as [|a l IH]; [reflexivity|]. cbn. now rewrite H, IH.
Qed.

Lemma mixed_group_same (name : string) (joined joined' : list (point_row * Z)) :
  (forall row, In row joined <-> In row joined') ->
  mixed_group name joined = mixed_group name joined'.
Proof.
  intros H. unfold mixed_group.
  rewrite (existsb_same_elements _ joined joined' H).
  apply existsb_pointwise. intros row. f_equal.
  apply existsb_same_elements. intros r. unfold group.
  rewrite !filter_In. now rewrite H.
Qed.

Lemma weight_error_same (weight_field : option string) (pts pts' : frame)
    (joined joined' : list (point_row * Z)) :
  weighted weight_field pts = weighted weight_field pts' ->
  (forall row, In row joined <-> In row joined') ->
  weight_error weight_field pts joined =
  weight_error weight_field pts' joined'.
Proof.
  intros Hw H. unfold weight_error, aggregate. rewrite <- Hw.
  destruct (weighted weight_field pts) as [name|]; [|reflexivity].
  destruct (String.eqb name "geometry"); [reflexivity|].
  rewrite (mixed_group_same name joined joined' H).
  rewrite (existsb_same_elements (text_cell name) joined joined' H).
  destruct (mixed_group name joined'); [reflexivity|].
  destruct (existsb (text_cell name) joined'); reflexivity.
Qed.

Lemma sjoin_perm (pts pts' : list point_row) (hex_gdf : list (Z * polygon))
    (row : point_row * Z) :
  Permutation pts pts' ->
  In row (sjoin pts hex_gdf) <-> In row (sjoin pts' hex_gdf).
Proof.
  intros Hp.
  assert (Hj : Permutation (sjoin pts hex_gdf) (sjoin pts' hex_gdf))
    by (unfold sjoin; now apply Permutation_flat_map).
  split; apply Permutation_in; [exact Hj | apply Permutation_sym; exact Hj].
Qed.

(** X9: the order in which the input files are given does not matter:
    two runs whose input lists are permutations of each other end alike
    and, when they write, export the same collection. *)
Theorem input_order_is_irrelevant (hex_m : Z)
    (inputs inputs' : list input_file) (weight_field : option string) :
  Permutation inputs inputs' ->
  main hex_m inputs weight_field = main hex_m inputs' weight_field.
Proof.
  intros Hp. destruct (load_points_perm inputs inputs' Hp) as [Hr Hc].
  rewrite !main_unfold. unfold empty.
  rewrite (total_bounds_perm _ _ Hr).
  destruct (rows (load_points inputs)) as [|p l] eqn:E;
    destruct (rows (load_points inputs')) as [|p' l'] eqn:E'.
  - reflexivity.
  - apply Permutation_nil in Hr. discriminate.
  - apply Permutation_sym, Permutation_nil in Hr. discriminate.
  - destruct (make_hex_grid (total_bounds (load_points inputs')) hex_m)
      as [hexes | e]; [|reflexivity].
    rewrite (weight_error_same weight_field (load_points inputs)
               (load_points inputs')
               (sjoin (p :: l) (reset_index hexes))
               (sjoin (p' :: l') (reset_index hexes))
               (weighted_same_columns weight_field _ _ Hc)
               (fun row => sjoin_perm _ _ _ row Hr)).
    destruct (weight_error weight_field (load_points inputs') _);
      [reflexivity|].
    f_equal. apply hotspots_perm; [rewrite E, E'; exact Hr | exact Hc].
Qed.

Lemma input_order_is_irrelevant_witness :
  main 2000 (Missing :: scenario_inputs [] [] []) None =
  main 2000 (scenario_inputs [] [] [] ++ [Missing]) None.
Proof.
  apply input_order_is_irrelevant.
  unfold scenario_inputs. apply perm_swap.
Defined.

(** ** What [load_points] keeps and what it passes over *)

Lemma skipped_no_rows (f : input_file) : skipped f <-> usable_points f = [].
Proof.
  destruct f as [| | declared features]; cbn [skipped usable_points];
    try (split; [reflexivity | intros _; exact I]).
  induction features as [|ft l IH]; cbn [flat_map].
  - split; [reflexivity | intros _; constructor].
  - unfold row_of at 1. split.
    + intros Hall. inversion Hall as [|? ? Hft Hl]; subst.
      rewrite Hft. cbn [app]. now apply IH.
    + destruct (f_geometry ft) as [x y|] eqn:E; [discriminate|].
      cbn [app]. intros Hl. constructor; [exact E | now apply IH].
Qed.

Lemma skipped_no_frame (f : input_file) : skipped f -> load_frame f = [].
Proof.
  intros Hs. apply skipped_no_rows in Hs.
  destruct f as [| | declared features]; try reflexivity.
  cbn [load_frame usable_points] in *.
  destruct features as [|ft l]; [reflexivity|]. now rewrite Hs.
Qed.

(** X10: an input that is missing, unreadable, empty or without a single
    Point feature is passed over without a trace: it adds neither rows
    nor columns to the loaded frame, so dropping it from the input list
    changes nothing in the run. *)
Theorem skipped_input_changes_nothing (l1 l2 : list input_file)
    (f : input_file) :
  skipped f ->
  load_points (l1 ++ f :: l2) = load_points (l1 ++ l2) /\
  forall hex_m weight_field,
    main hex_m (l1 ++ f :: l2) weight_field =
    main hex_m (l1 ++ l2) weight_field.
Proof.
  intros Hs.
  assert (Hload : load_points (l1 ++ f :: l2) = load_points (l1 ++ l2)).
  { unfold load_points. rewrite !flat_map_app. cbn [flat_map].
    rewrite (skipped_no_frame f Hs). reflexivity. }
  split; [exact Hload|].
  intros hex_m weight_field. unfold main. now rewrite Hload.
Qed.

Lemma skipped_input_changes_nothing_witness :
  load_points (Unreadable :: scenario_inputs [] [] []) =
  load_points (scenario_inputs [] [] []).
Proof.
  apply (skipped_input_changes_nothing [] (scenario_inputs [] [] [])
           Unreadable I).
Defined.

Lemma usable_points_length (f : input_file) :
  List.length (usable_points f) = point_count f.
Proof.
  destruct f as [| | declared features]; try reflexivity.
  cbn [usable_points point_count].
  induction features as [|ft l IH]; [reflexivity|].
  cbn [flat_map filter]. rewrite length_app, IH. unfold row_of.
  destruct (f_geometry ft); reflexivity.
Qed.

(** X11: [load_points] keeps exactly the Point features.  The number of
    loaded rows is the number of Point features over all inputs; the
    loaded rows are exactly the Point features of the readable
    collections, each with its numbers, nulls and texts unchanged and
    with its position
    as it is given when the collection declares EPSG:4326 or no CRS, and
    with longitude x/a * 180/pi and latitude
    (2*atan(exp(y/a)) - pi/2) * 180/pi, a = 6378137, when it declares
    EPSG:3857; the frame is empty exactly when every input is missing,
    unreadable, empty or without Point features. *)
Theorem load_points_keeps_the_points (in_files : list input_file) :
  List.length (rows (load_points in_files)) =
    fold_right Nat.add 0%nat (map point_count in_files) /\
  (forall p, In p (rows (load_points in_files)) <->
     exists declared features ft x y,
       In (Collection declared features) in_files /\
       In ft features /\ f_geometry ft = GPoint x y /\
       pt_props p = f_props ft /\ pt_text p = f_text ft /\
       pt_xy p =
         match declared with
         | Some EPSG3857 =>
             (x / 6378137 * 180 / PI,
              (2 * atan (exp (y / 6378137)) - PI / 2) * 180 / PI)
         | Some EPSG4326 | None => (x, y)
         end) /\
  (empty (load_points in_files) = true <-> Forall skipped in_files).
Proof.
  rewrite load_points_rows. split; [|split].
  - induction in_files as [|f l IH]; [reflexivity|].
    cbn [flat_map map fold_right].
    now rewrite length_app, IH, usable_points_length.
  - intros p. split.
    + intros Hp. apply in_flat_map in Hp as [f [Hf Hp]].
      destruct f as [| | declared features]; try destruct Hp.
      cbn [usable_points] in Hp. apply in_flat_map in Hp as [ft [Hft Hp]].
      unfold row_of in Hp. destruct (f_geometry ft) as [x y|] eqn:E;
        [|destruct Hp].
      destruct Hp as [<- | []].
      exists declared, features, ft, x, y.
      split; [exact Hf|]. split; [exact Hft|]. split; [exact E|].
      split; [reflexivity|]. split; [reflexivity|].
      cbn [pt_xy]. now destruct declared as [[|]|].
    + intros (declared & features & ft & x & y & Hc & Hft & Hg & Hprops
              & Htext & Hxy).
      apply in_flat_map. exists (Collection declared features).
      split; [exact Hc|]. cbn [usable_points].
      apply in_flat_map. exists ft. split; [exact Hft|].
      unfold row_of. rewrite Hg. left.
      destruct p as [xy props text].
      cbn [pt_xy pt_props pt_text] in Hprops, Htext, Hxy.
      rewrite Hprops, Htext, Hxy. now destruct declared as [[|]|].
  - unfold empty. rewrite load_points_rows. split.
    + intros He. apply Forall_forall. intros f Hf. apply skipped_no_rows.
      destruct (usable_points f) as [|p l] eqn:E; [reflexivity|].
      exfalso.
      assert (Hin : In p (flat_map usable_points in_files)).
      { apply in_flat_map. exists f. split; [exact Hf|].
        rewrite E. left. reflexivity. }
      destruct (flat_map usable_points in_files); [destruct Hin | discriminate].
    + intros Hall.
      assert (Hnil : flat_map usable_points in_files = []).
      { induction Hall as [|f l Hf _ IH]; [reflexivity|].
        cbn [flat_map]. apply skipped_no_rows in Hf. now rewrite Hf, IH. }
      now rewrite Hnil.
Qed.

Lemma load_points_keeps_the_points_witness :
  In {| pt_xy := (2000 / 6378137 * 180 / PI,
                  (2 * atan (exp (1000 / 6378137)) - PI / 2) * 180 / PI);
        pt_props := [("w"%string, Some 5)];
        pt_text := ["title"%string] |}
     (rows (load_points
              [ Missing;
                Collection (Some EPSG3857)
                  [ {| f_geometry := GOther; f_props := []; f_text := [] |};
                    {| f_geometry := GPoint 2000 1000;
                       f_props := [("w"%string, Some 5)];
       f_text := ["title"%string] |} ] ])).
Proof.
  apply (proj1 (proj2 (load_points_keeps_the_points _))).
  exists (Some EPSG3857),
    [ {| f_geometry := GOther; f_props := []; f_text := [] |};
      {| f_geometry := GPoint 2000 1000;
         f_props := [("w"%string, Some 5)];
       f_text := ["title"%string] |} ],
    {| f_geometry := GPoint 2000 1000; f_props := [("w"%string, Some 5)];
       f_text := ["title"%string] |},
    2000, 1000.
  repeat split.
  - right. left. reflexivity.
  - right. left. reflexivity.
Defined.

(** ** Holes between the rows *)

Lemma gd_derivative (y : R) : derivable_pt_lim gd y (gd' y).
Proof.
  unfold gd, gd'.
  change (fun y0 : R => atan (exp (y0 / EARTH_RADIUS)))
    with (comp atan (comp exp (fun y0 : R => id y0 / EARTH_RADIUS))).
  apply derivable_pt_lim_comp.
  - apply derivable_pt_lim_comp.
    + apply derivable_pt_lim_div_scal. apply derivable_pt_lim_id.
    + apply derivable_pt_lim_exp.
  - apply derivable_pt_lim_atan.
Qed.

Lemma gd'_increasing (c1 c2 : R) : c1 <= c2 -> c2 <= 0 -> gd' c1 <= gd' c2.
Proof.
  intros H12 H2. unfold gd'. pose proof EARTH_RADIUS_pos as Ha.
  set (u1 := exp (c1 / EARTH_RADIUS)). set (u2 := exp (c2 / EARTH_RADIUS)).
  assert (Hu1 : 0 < u1) by apply exp_pos.
  assert (Hu12 : u1 <= u2).
  { destruct H12 as [H12 | ->]; [|apply Rle_refl]. left.
    apply exp_increasing. unfold Rdiv. apply Rmult_lt_compat_r; [|exact H12].
    now apply Rinv_0_lt_compat. }
  assert (Hu2 : u2 <= 1).
  { unfold u2. rewrite <- exp_0.
    assert (Hx : c2 / EARTH_RADIUS <= 0).
    { unfold Rdiv. replace 0 with (0 * / EARTH_RADIUS) by ring.
      apply Rmult_le_compat_r; [left; now apply Rinv_0_lt_compat | exact H2]. }
    destruct Hx as [Hx | Hx]; [left; now apply exp_increasing|].
    rewrite Hx. apply Rle_refl. }
  assert (Hk : 0 < 1 / EARTH_RADIUS) by (apply Rdiv_lt_0_compat; lra).
  assert (Hq : u1 / (1 + u1 ^ 2) <= u2 / (1 + u2 ^ 2)).
  { apply Rmult_le_reg_r with ((1 + u1 ^ 2) * (1 + u2 ^ 2)); [nra|].
    replace (u1 / (1 + u1 ^ 2) * ((1 + u1 ^ 2) * (1 + u2 ^ 2)))
      with (u1 * (1 + u2 ^ 2)) by (field; nra).
    replace (u2 / (1 + u2 ^ 2) * ((1 + u1 ^ 2) * (1 + u2 ^ 2)))
      with (u2 * (1 + u1 ^ 2)) by (field; nra).
    assert (Hp : 0 <= (u2 - u1) * (1 - u1 * u2)).
    { apply Rmult_le_pos; [lra|]. nra. }
    apply Rminus_le.
    replace (u1 * (1 + u2 ^ 2) - u2 * (1 + u1 ^ 2))
      with (- ((u2 - u1) * (1 - u1 * u2))) by ring.
    lra. }
  replace (/ (1 + u1 ^ 2) * (u1 * (1 / EARTH_RADIUS)))
    with (u1 / (1 + u1 ^ 2) * (1 / EARTH_RADIUS)) by (field; nra).
  replace (/ (1 + u2 ^ 2) * (u2 * (1 / EARTH_RADIUS)))
    with (u2 / (1 + u2 ^ 2) * (1 / EARTH_RADIUS)) by (field; nra).
  apply Rmult_le_compat_r; lra.
Qed.

Lemma lat_of_gd (y : R) : lat_of y = (2 * gd y - PI / 2) * 180 / PI.
Proof. reflexivity. Qed.

(** South of the equator the latitude is a convex function of the planar
    ordinate: chords get steeper towards the equator. *)
Lemma lat_of_convex_south (y1 y2 y3 : R) :
  y1 < y2 -> y2 < y3 -> y3 <= 0 ->
  (lat_of y2 - lat_of y1) * (y3 - y2) <= (lat_of y3 - lat_of y2) * (y2 - y1).
Proof.
  intros H12 H23 H3.
  destruct (MVT_cor2 gd gd' y1 y2 H12 (fun c _ => gd_derivative c))
    as [c1 [E1 [Hc1 Hc1']]].
  destruct (MVT_cor2 gd gd' y2 y3 H23 (fun c _ => gd_derivative c))
    as [c2 [E2 [Hc2 Hc2']]].
  assert (Hd : gd' c1 <= gd' c2) by (apply gd'_increasing; lra).
  assert (Hg : (gd y2 - gd y1) * (y3 - y2) <= (gd y3 - gd y2) * (y2 - y1)).
  { rewrite E1, E2. assert (0 <= (y2 - y1) * (y3 - y2)) by nra. nra. }
  pose proof PI_RGT_0 as Hpi.
  assert (Hk : 0 < 360 / PI) by (apply Rdiv_lt_0_compat; lra).
  rewrite !lat_of_gd.
  replace ((((2 * gd y2 - PI / 2) * 180 / PI)
            - ((2 * gd y1 - PI / 2) * 180 / PI)) * (y3 - y2))
    with (360 / PI * ((gd y2 - gd y1) * (y3 - y2))) by (field; lra).
  replace ((((2 * gd y3 - PI / 2) * 180 / PI)
            - ((2 * gd y2 - PI / 2) * 180 / PI)) * (y2 - y1))
    with (360 / PI * ((gd y3 - gd y2) * (y2 - y1))) by (field; lra).
  apply Rmult_le_compat_l; lra.
Qed.

(** Half a radius below the centre line of a cell that is centred on or
    south of the equator, the point half a column to either side of the
    centre is not within the cell. *)
Lemma outside_below_shoulder (cx cy Rr x y : R) :
  0 < Rr -> cy <= 0 -> y = cy - Rr / 2 ->
  x = cx - Rr * sqrt 3 / 2 \/ x = cx + Rr * sqrt 3 / 2 ->
  within (to_wgs (x, y)) (hexagon cx cy Rr) = false.
Proof.
  intros HR Hcy -> Hx. rewrite within_hexagon_pos by exact HR.
  pose proof sqrt3_bounds as Hs. pose proof sqrt3_sq as Hsq.
  assert (Hconv := lat_of_convex_south (cy - Rr * sqrt 3 / 2) (cy - Rr / 2) cy).
  assert (Hc : (lat_of (cy - Rr / 2) - lat_of (cy - Rr * sqrt 3 / 2))
               * (cy - (cy - Rr / 2))
               <= (lat_of cy - lat_of (cy - Rr / 2))
                  * (cy - Rr / 2 - (cy - Rr * sqrt 3 / 2)))
    by (apply Hconv; nra).
  assert (Ha : lat_of (cy - Rr / 2) < lat_of cy) by (apply lat_of_lt; lra).
  assert (Hb : lat_of (cy - Rr * sqrt 3 / 2) < lat_of (cy - Rr / 2))
    by (apply lat_of_lt; nra).
  set (a := lat_of cy - lat_of (cy - Rr / 2)) in *.
  set (b := lat_of (cy - Rr / 2) - lat_of (cy - Rr * sqrt 3 / 2)) in *.
  assert (Hba : b <= a * (sqrt 3 - 1)).
  { apply Rmult_le_reg_r with (Rr / 2); [lra|].
    replace (cy - (cy - Rr / 2)) with (Rr / 2) in Hc by ring.
    replace (cy - Rr / 2 - (cy - Rr * sqrt 3 / 2))
      with ((sqrt 3 - 1) * (Rr / 2)) in Hc by field.
    lra. }
  assert (Hkey : (a + b) * (2 - sqrt 3) <= a).
  { assert (0 < a) by (unfold a; lra). assert (0 < b) by (unfold b; lra).
    assert (b * (2 - sqrt 3) <= a * (sqrt 3 - 1) * (2 - sqrt 3))
      by (apply Rmult_le_compat_r; lra).
    assert (a * (sqrt 3 - 1) * (2 - sqrt 3) <= a * (sqrt 3 - 1)).
    { rewrite <- (Rmult_1_r (a * (sqrt 3 - 1))) at 2.
      apply Rmult_le_compat_l; [|lra]. apply Rmult_le_pos; lra. }
    lra. }
  assert (HB : lat_of cy - lat_of (cy - Rr * sqrt 3 / 2) = a + b)
    by (unfold a, b; ring).
  assert (Hw : lat_of (cy - Rr / 2) - lat_of cy = - a) by (unfold a; ring).
  apply not_true_is_false. intros Hall.
  cbn [forallb edge_tests] in Hall.
  repeat rewrite ?andb_true_iff, ?Rltb_true in Hall.
  destruct Hall as (_ & _ & _ & H4 & _ & H6 & _).
  rewrite HB, Hw in H4, H6.
  assert (Hscaled : (a + b) * (Rr - Rr * sqrt 3 / 2) <= Rr / 2 * a).
  { replace ((a + b) * (Rr - Rr * sqrt 3 / 2))
      with (Rr / 2 * ((a + b) * (2 - sqrt 3))) by field.
    apply Rmult_le_compat_l; lra. }
  destruct Hx as [-> | ->].
  - replace (cx - Rr * sqrt 3 / 2 - cx + Rr) with (Rr - Rr * sqrt 3 / 2)
      in H4 by ring.
    lra.
  - replace (Rr - (cx + Rr * sqrt 3 / 2 - cx)) with (Rr - Rr * sqrt 3 / 2)
      in H6 by ring.
    lra.
Qed.

(** X12: the tiling has holes.  In a grid built for a positive radius,
    take any cell (r, c) whose upper neighbour row is centred on or south
    of the equator: the point one radius above the centre of the cell is
    within no hexagon of the grid, so a data point there is assigned to no
    hex_id and is dropped by the inner join. *)
Theorem tiling_has_holes (bounds : R * R * R * R) (hex_radius_m r c : Z) :
  (0 < hex_radius_m)%Z ->
  let px := fst (padded_min bounds hex_radius_m) in
  let py := snd (padded_min bounds hex_radius_m) in
  let dx := spacing_dx hex_radius_m in
  let dy := spacing_dy hex_radius_m in
  let nrows := n_rows bounds hex_radius_m in
  let ncols := n_cols bounds hex_radius_m in
  cell_cy py dy (r + 1) <= 0 ->
  let q := to_wgs (cell_cx px dx r c, cell_cy py dy r + IZR hex_radius_m) in
  exists polys,
    make_hex_grid bounds hex_radius_m = Ok polys /\
    forall r' c' g,
      (0 <= r' < nrows)%Z -> (0 <= c' < ncols)%Z ->
      nth_error polys (Z.to_nat (r' * ncols + c')) = Some g ->
      within q g = false.
Proof.
  intros HR px py dx dy nrows ncols Hsouth q.
  exists (layout_cells bounds hex_radius_m).
  split; [apply make_hex_grid_nonzero; lia|].
  intros r' c' g Hr' Hc' Hg.
  unfold layout_cells in Hg. fold px py dx dy nrows ncols in Hg.
  rewrite hex_cells_nth_error in Hg by assumption. injection Hg as <-.
  assert (HRr : 0 < IZR hex_radius_m) by (apply IZR_lt; exact HR).
  pose proof sqrt3_bounds as Hs.
  unfold q, cell_cy, dy, spacing_dy in *.
  destruct (Z_lt_le_dec r r') as [Hgt | Hle].
  - destruct (Z.eq_dec r' (r + 1)) as [-> | Hne].
    + (* the row just above *)
      assert (Hy : py + IZR r * (IZR hex_radius_m * 1.5) + IZR hex_radius_m
                   = py + IZR (r + 1) * (IZR hex_radius_m * 1.5)
                     - IZR hex_radius_m / 2)
        by (rewrite plus_IZR, Rmult_plus_distr_r; lra).
      assert (Hodd : Z.odd (r + 1) = negb (Z.odd r))
        by (rewrite Z.add_1_r, Z.odd_succ, <- Z.negb_odd; reflexivity).
      assert (Hd : IZR hex_radius_m <= dx)
        by (unfold dx, spacing_dx; nra).
      assert (Hx : cell_cx px dx r c - cell_cx px dx (r + 1) c'
                   = (IZR c - IZR c') * dx
                     + (if Z.odd r then dx / 2 else - (dx / 2))).
      { unfold cell_cx. rewrite Hodd. destruct (Z.odd r); cbn [negb]; field. }
      destruct (Z.odd r) eqn:Eo.
      * (* r odd: the two cells above are c' = c and c' = c + 1 *)
        destruct (Z.eq_dec c' c) as [-> | Hn0];
          [|destruct (Z.eq_dec c' (c + 1)) as [-> | Hn1]].
        -- apply outside_below_shoulder; [exact HRr | exact Hsouth | exact Hy|].
           right. unfold cell_cx, dx, spacing_dx. rewrite Hodd, Eo.
           cbn [negb]. field.
        -- apply outside_below_shoulder; [exact HRr | exact Hsouth | exact Hy|].
           left. unfold cell_cx, dx, spacing_dx. rewrite Hodd, Eo, plus_IZR.
           cbn [negb]. field.
        -- apply outside_far_x; [exact HRr|].
           destruct (Z_lt_le_dec c' c) as [Hlt | Hge].
           ++ right. assert (H1 : 1 <= IZR c - IZR c')
                by (rewrite <- minus_IZR; apply IZR_le; lia).
              assert (dx <= (IZR c - IZR c') * dx) by nra. lra.
           ++ left. assert (H1 : IZR c - IZR c' <= - 2)
                by (rewrite <- minus_IZR; apply IZR_le; lia).
              assert ((IZR c - IZR c') * dx <= - 2 * dx) by nra. lra.
      * (* r even: the two cells above are c' = c - 1 and c' = c *)
        destruct (Z.eq_dec c' c) as [-> | Hn0];
          [|destruct (Z.eq_dec c' (c - 1)) as [-> | Hn1]].
        -- apply outside_below_shoulder; [exact HRr | exact Hsouth | exact Hy|].
           left. unfold cell_cx, dx, spacing_dx. rewrite Hodd, Eo.
           cbn [negb]. field.
        -- apply outside_below_shoulder; [exact HRr | exact Hsouth | exact Hy|].
           right. unfold cell_cx, dx, spacing_dx. rewrite Hodd, Eo, minus_IZR.
           cbn [negb]. field.
        -- apply outside_far_x; [exact HRr|].
           destruct (Z_lt_le_dec c' c) as [Hlt | Hge].
           ++ right. assert (H1 : 2 <= IZR c - IZR c')
                by (rewrite <- minus_IZR; apply IZR_le; lia).
              assert (2 * dx <= (IZR c - IZR c') * dx) by nra. lra.
           ++ left. assert (H1 : IZR c - IZR c' <= - 1)
                by (rewrite <- minus_IZR; apply IZR_le; lia).
              assert ((IZR c - IZR c') * dx <= - dx) by nra. lra.
    + (* rows further up *)
      apply outside_far_y; [exact HRr|]. right.
      assert (H2 : IZR r + 2 <= IZR r')
        by (rewrite <- plus_IZR; apply IZR_le; lia).
      assert ((IZR r + 2) * (IZR hex_radius_m * 1.5)
              <= IZR r' * (IZR hex_radius_m * 1.5))
        by (apply Rmult_le_compat_r; lra).
      nra.
  - (* the row of the cell and the rows below *)
    apply outside_far_y; [exact HRr|]. left.
    assert (H1 : IZR r' <= IZR r) by (apply IZR_le; exact Hle).
    assert (IZR r' * (IZR hex_radius_m * 1.5)
            <= IZR r * (IZR hex_radius_m * 1.5))
      by (apply Rmult_le_compat_r; lra).
    nra.
Qed.

Lemma scenario_second_row_south :
  cell_cy (snd (padded_min scenario_bbox 2000)) (spacing_dy 2000) (0 + 1) <= 0.
Proof.
  unfold cell_cy, scenario_bbox, padded_min, spacing_dy.
  rewrite !to_merc_of. cbn [fst snd Z.add]. lra.
Qed.

Lemma tiling_has_holes_witness :
  exists polys, make_hex_grid scenario_bbox 2000 = Ok polys.
Proof.
  destruct (tiling_has_holes scenario_bbox 2000 0 1 eq_refl
              scenario_second_row_south) as [polys [H _]].
  exists polys. exact H.
Defined.

(** ** The rim of the exported grid *)

Lemma total_bounds_spec (pts : frame) :
  rows pts <> [] ->
  let '(minx, miny, maxx, maxy) := total_bounds pts in
  (forall p, In p (rows pts) ->
     minx <= fst (pt_xy p) <= maxx /\ miny <= snd (pt_xy p) <= maxy) /\
  (exists p, In p (rows pts) /\ fst (pt_xy p) = minx) /\
  (exists p, In p (rows pts) /\ snd (pt_xy p) = miny) /\
  (exists p, In p (rows pts) /\ fst (pt_xy p) = maxx) /\
  (exists p, In p (rows pts) /\ snd (pt_xy p) = maxy).
Proof.
  intros Hne. unfold total_bounds.
  destruct (rows pts) as [|p0 l] eqn:E; [contradiction|].
  cbn [map]. destruct (pt_xy p0) as [x y] eqn:E0.
  destruct (fold_min_spec (map fst (map pt_xy l)) x) as [Hix Hlx].
  destruct (fold_min_spec (map snd (map pt_xy l)) y) as [Hiy Hly].
  destruct (fold_max_spec (map fst (map pt_xy l)) x) as [Hax Hux].
  destruct (fold_max_spec (map snd (map pt_xy l)) y) as [Hay Huy].
  assert (Hfst : forall v, In v (x :: map fst (map pt_xy l)) ->
                           exists p, In p (p0 :: l) /\ fst (pt_xy p) = v).
  { intros v [<- | Hv].
    - exists p0. rewrite E0. split; [left|]; reflexivity.
    - rewrite map_map in Hv. apply in_map_iff in Hv as [p [<- Hp]].
      exists p. split; [right; exact Hp | reflexivity]. }
  assert (Hsnd : forall v, In v (y :: map snd (map pt_xy l)) ->
                           exists p, In p (p0 :: l) /\ snd (pt_xy p) = v).
  { intros v [<- | Hv].
    - exists p0. rewrite E0. split; [left|]; reflexivity.
    - rewrite map_map in Hv. apply in_map_iff in Hv as [p [<- Hp]].
      exists p. split; [right; exact Hp | reflexivity]. }
  split; [|repeat split; [apply Hfst | apply Hsnd | apply Hfst | apply Hsnd];
           assumption].
  intros p Hp.
  assert (Hx : In (fst (pt_xy p)) (x :: map fst (map pt_xy l))).
  { destruct Hp as [<- | Hp]; [rewrite E0; left; reflexivity|].
    right. rewrite map_map. now apply (in_map (fun q => fst (pt_xy q))). }
  assert (Hy : In (snd (pt_xy p)) (y :: map snd (map pt_xy l))).
  { destruct Hp as [<- | Hp]; [rewrite E0; left; reflexivity|].
    right. rewrite map_map. now apply (in_map (fun q => snd (pt_xy q))). }
  repeat split; [apply Hlx | apply Hux | apply Hly | apply Huy]; assumption.
Qed.

Lemma total_bounds_proper (pts : frame) :
  rows pts <> [] ->
  (forall p, In p (rows pts) -> -90 < snd (pt_xy p) < 90) ->
  proper_bounds (total_bounds pts) /\
  forall p, In p (rows pts) -> in_bounds (total_bounds pts) (pt_xy p).
Proof.
  intros Hne Hlat. pose proof (total_bounds_spec pts Hne) as Hspec.
  destruct (total_bounds pts) as [[[minx miny] maxx] maxy].
  destruct Hspec as (Hall & [px [Hpx Ex]] & [py [Hpy Ey]] & _ & [qy [Hqy Fy]]).
  unfold proper_bounds, in_bounds. split.
  - destruct (Hall px Hpx) as [[_ H1] _]. destruct (Hall py Hpy) as [_ [_ H2]].
    pose proof (Hlat py Hpy). pose proof (Hlat qy Hqy).
    repeat split; lra.
  - exact Hall.
Qed.

(** X13: the rim of the exported grid is always empty.  In a run with a
    positive radius whose points all have latitudes strictly between the
    poles, every record of the first or last row or of the first or last
    column has value 0: the padding of two radii keeps all data inside. *)
Theorem rim_records_are_zero (hex_m : Z) (inputs : list input_file)
    (weight_field : option string) (features : list hex_record) :
  main hex_m inputs weight_field = Wrote features ->
  (0 < hex_m)%Z ->
  (forall p, In p (rows (load_points inputs)) -> -90 < snd (pt_xy p) < 90) ->
  let bounds := total_bounds (load_points inputs) in
  let nrows := n_rows bounds hex_m in
  let ncols := n_cols bounds hex_m in
  forall r c rec,
    (0 <= r < nrows)%Z -> (0 <= c < ncols)%Z ->
    (r = 0 \/ r = nrows - 1 \/ c = 0 \/ c = ncols - 1)%Z ->
    nth_error features (Z.to_nat (r * ncols + c)) = Some rec ->
    value rec = 0.
Proof.
  intros Hmain HR Hlat bounds nrows ncols r c rec Hr Hc Hborder Hrec.
  assert (Hne : rows (load_points inputs) <> []).
  { intros E. rewrite load_points_rows in E.
    rewrite main_without_points in Hmain by exact E. discriminate. }
  destruct (total_bounds_proper (load_points inputs) Hne Hlat) as [Hb Hin].
  apply wrote_inversion in Hmain as [_ ->]. fold bounds in Hrec.
  rewrite hotspots_records in Hrec.
  pose proof (hex_cells_nth_error
                (fst (padded_min bounds hex_m)) (snd (padded_min bounds hex_m))
                (spacing_dx hex_m) (spacing_dy hex_m) (IZR hex_m)
                nrows ncols r c Hr Hc) as Hnth.
  pose proof (reset_index_nth_error (layout_cells bounds hex_m) _ _ Hnth)
    as Hidx.
  rewrite (map_nth_error _ _ _ Hidx) in Hrec. injection Hrec as <-.
  destruct (record_of_fields weight_field (load_points inputs)
              (Z.of_nat (Z.to_nat (r * ncols + c)),
               hexagon (cell_cx (fst (padded_min bounds hex_m))
                                (spacing_dx hex_m) r c)
                       (cell_cy (snd (padded_min bounds hex_m))
                                (spacing_dy hex_m) r)
                       (IZR hex_m))) as (_ & _ & _ & _ & Hv).
  cbv zeta in Hv. rewrite Hv. cbn [fst snd].
  assert (Hnone : points_within (rows (load_points inputs))
                    (hexagon (cell_cx (fst (padded_min bounds hex_m))
                                      (spacing_dx hex_m) r c)
                             (cell_cy (snd (padded_min bounds hex_m))
                                      (spacing_dy hex_m) r)
                             (IZR hex_m)) = []).
  { unfold points_within.
    destruct (filter _ (rows (load_points inputs))) as [|p l] eqn:E;
      [reflexivity|].
    exfalso.
    assert (Hp : In p (filter
                         (fun p => within (pt_xy p)
                            (hexagon (cell_cx (fst (padded_min bounds hex_m))
                                              (spacing_dx hex_m) r c)
                                     (cell_cy (snd (padded_min bounds hex_m))
                                              (spacing_dy hex_m) r)
                                     (IZR hex_m)))
                         (rows (load_points inputs))))
      by (rewrite E; left; reflexivity).
    apply filter_In in Hp as [Hp Hw].
    rewrite (border_cell_outside bounds hex_m (pt_xy p) r c Hb HR
               (Hin p Hp) Hr Hc Hborder) in Hw.
    discriminate. }
  rewrite Hnone. apply cell_value_nil.
Qed.

Lemma scenario_latitudes (p : point_row) :
  In p (rows (load_points (scenario_inputs [] [] []))) ->
  -90 < snd (pt_xy p) < 90.
Proof.
  rewrite scenario_load. cbn [rows scenario_rows].
  pose proof scenario_bbox_proper as (_ & Hlo & Hy & Hhi).
  intros [<- | [<- | [<- | []]]]; cbn [pt_xy snd]; lra.
Qed.

Lemma rim_records_are_zero_witness :
  exists rec,
    nth_error (hotspots None (load_points (scenario_inputs [] [] []))
                        scenario_hexes) 0 = Some rec /\
    value rec = 0.
Proof.
  destruct (nth_error (hotspots None (load_points (scenario_inputs [] [] []))
                                scenario_hexes) 0) as [rec|] eqn:Hrec.
  - exists rec. split; [reflexivity|].
    pose proof (rim_records_are_zero 2000 (scenario_inputs [] [] []) None _
                  (scenario_main [] [] [] None unweighted_run) eq_refl scenario_latitudes
                  0%Z 0%Z rec) as H.
    cbv zeta in H. rewrite scenario_bounds in H.
    fold scenario_bbox in H. rewrite scenario_n_rows, scenario_n_cols in H.
    apply H; [lia | lia | left; reflexivity | exact Hrec].
  - exfalso. apply nth_error_None in Hrec.
    rewrite hotspots_records, length_map, reset_index_length,
      scenario_hexes_length in Hrec.
    lia.
Defined.

(** ** Moving the data along a parallel *)

Lemma to_merc_shift (d lon lat : R) :
  to_merc (lon + d, lat) =
  (fst (to_merc (lon, lat)) + EARTH_RADIUS * (d * PI / 180),
   snd (to_merc (lon, lat))).
Proof. unfold to_merc. cbn [fst snd]. f_equal. field. Qed.

Lemma to_wgs_shift (d x y : R) :
  to_wgs (x + EARTH_RADIUS * (d * PI / 180), y) = shift_east d (to_wgs (x, y)).
Proof.
  unfold to_wgs, shift_east. cbn [fst snd]. f_equal.
  pose proof PI_RGT_0 as Hpi. pose proof EARTH_RADIUS_pos as Ha.
  field. split; lra.
Qed.

Lemma hexagon_shift (d cx cy Rr : R) :
  hexagon (cx + EARTH_RADIUS * (d * PI / 180)) cy Rr =
  map (shift_east d) (hexagon cx cy Rr).
Proof.
  unfold hexagon. rewrite map_map. apply map_ext. intros i.
  unfold hex_vertex_m. rewrite <- to_wgs_shift. f_equal. f_equal. ring.
Qed.

Lemma map_flat_map_comm {A B C : Type} (f : B -> C) (g : A -> list B)
    (l : list A) :
  map f (flat_map g l) = flat_map (fun a => map f (g a)) l.
Proof.
  induction l as [|a l IH]; [reflexivity|].
  cbn [flat_map]. now rewrite map_app, IH.
Qed.

Lemma hex_cells_shift (d minx_m miny_m dx dy Rr : R) (nrows ncols : Z) :
  hex_cells (minx_m + EARTH_RADIUS * (d * PI / 180)) miny_m dx dy Rr
            nrows ncols =
  map (map (shift_east d)) (hex_cells minx_m miny_m dx dy Rr nrows ncols).
Proof.
  unfold hex_cells. rewrite map_flat_map_comm.
  apply flat_map_ext. intros r. rewrite map_map. apply map_ext. intros c.
  rewrite <- hexagon_shift. f_equal. unfold cell_cx. ring.
Qed.

Lemma layout_cells_shift (d : R) (bounds : R * R * R * R) (hex_radius_m : Z) :
  layout_cells (shift_bounds d bounds) hex_radius_m =
  map (map (shift_east d)) (layout_cells bounds hex_radius_m).
Proof.
  destruct bounds as [[[minx miny] maxx] maxy].
  unfold layout_cells, n_rows, n_cols, padded_min, padded_max, shift_bounds.
  rewrite !to_merc_shift. cbn [fst snd].
  rewrite <- hex_cells_shift. f_equal.
  - ring.
  - do 2 f_equal. unfold Rdiv. f_equal. ring.
Qed.

Lemma Rmin_shift (d a b : R) : Rmin (a + d) (b + d) = Rmin a b + d.
Proof.
  unfold Rmin. destruct (Rle_dec (a + d) (b + d)), (Rle_dec a b); lra.
Qed.

Lemma Rmax_shift (d a b : R) : Rmax (a + d) (b + d) = Rmax a b + d.
Proof.
  unfold Rmax. destruct (Rle_dec (a + d) (b + d)), (Rle_dec a b); lra.
Qed.

Lemma fold_min_shift (d : R) (l : list R) (x : R) :
  fold_left Rmin (map (fun a => a + d) l) (x + d) = fold_left Rmin l x + d.
Proof.
  revert x. induction l as [|a l IH]; intros x; [reflexivity|].
  cbn [map fold_left]. now rewrite Rmin_shift, IH.
Qed.

Lemma fold_max_shift (d : R) (l : list R) (x : R) :
  fold_left Rmax (map (fun a => a + d) l) (x + d) = fold_left Rmax l x + d.
Proof.
  revert x. induction l as [|a l IH]; intros x; [reflexivity|].
  cbn [map fold_left]. now rewrite Rmax_shift, IH.
Qed.

Lemma total_bounds_shift (d : R) (pts : frame) :
  rows pts <> [] ->
  total_bounds (shift_frame d pts) = shift_bounds d (total_bounds pts).
Proof.
  intros Hne. unfold total_bounds, shift_frame. cbn [rows].
  destruct (rows pts) as [|p0 l]; [contradiction|].
  cbn [map shift_row pt_xy]. destruct (pt_xy p0) as [x y].
  unfold shift_east at 1. cbn [fst snd shift_bounds].
  assert (Hx : map fst (map pt_xy (map (shift_row d) l)) =
               map (fun a => a + d) (map fst (map pt_xy l))).
  { rewrite !map_map. reflexivity. }
  assert (Hy : map snd (map pt_xy (map (shift_row d) l)) =
               map snd (map pt_xy l)).
  { rewrite !map_map. reflexivity. }
  rewrite Hx, Hy, fold_min_shift, fold_max_shift. reflexivity.
Qed.

Lemma edges_map (f : R * R -> R * R) (g : polygon) :
  edges (map f g) = map (fun e => (f (fst e), f (snd e))) (edges g).
Proof.
  unfold edges. destruct g as [|v0 rest]; [reflexivity|].
  cbn [map]. change [f v0] with (map f [v0]). rewrite <- map_app.
  change (f v0 :: map f rest) with (map f (v0 :: rest)).
  generalize (v0 :: rest) as l1, (rest ++ [v0])%list as l2.
  induction l1 as [|a l1 IH]; intros [|b l2]; try reflexivity.
  cbn [map combine fst snd]. now rewrite IH.
Qed.

Lemma orient_shift (d : R) (a b q : R * R) :
  orient (shift_east d a) (shift_east d b) (shift_east d q) = orient a b q.
Proof. unfold orient, shift_east. cbn [fst snd]. ring. Qed.

Lemma within_shift (d : R) (q : R * R) (g : polygon) :
  within (shift_east d q) (map (shift_east d) g) = within q g.
Proof.
  unfold within. rewrite edges_map, !forallb_map. cbn [fst snd].
  f_equal; apply forallb_pointwise; intros e; now rewrite orient_shift.
Qed.

Lemma points_within_shift (d : R) (rs : list point_row) (g : polygon) :
  points_within (map (shift_row d) rs) (map (shift_east d) g) =
  map (shift_row d) (points_within rs g).
Proof.
  unfold points_within. induction rs as [|p rs IH]; [reflexivity|].
  cbn [map filter shift_row pt_xy]. rewrite within_shift, IH.
  now destruct (within (pt_xy p) g).
Qed.

Lemma record_of_shift (d : R) (weight_field : option string) (pts : frame)
    (id : Z) (cx cy Rr : R) :
  record_of weight_field (shift_frame d pts)
            (id, map (shift_east d) (hexagon cx cy Rr)) =
  shift_record d (record_of weight_field pts (id, hexagon cx cy Rr)).
Proof.
  unfold record_of, annotate, shift_record.
  cbn [fst snd hex_id value area_km2 density_per_km2 geometry fillna0].
  assert (Ha : polygon_area (map to_merc (map (shift_east d)
                                              (hexagon cx cy Rr))) =
               polygon_area (map to_merc (hexagon cx cy Rr))).
  { now rewrite <- hexagon_shift, !hexagon_area. }
  assert (Hv : cell_value weight_field (shift_frame d pts)
                 (map (fun p => (p, id))
                      (points_within (rows (shift_frame d pts))
                         (map (shift_east d) (hexagon cx cy Rr)))) =
               cell_value weight_field pts
                 (map (fun p => (p, id))
                      (points_within (rows pts) (hexagon cx cy Rr)))).
  { unfold shift_frame at 2. cbn [rows]. rewrite points_within_shift.
    unfold cell_value.
    change (weighted weight_field (shift_frame d pts))
      with (weighted weight_field pts).
    destruct (weighted weight_field pts) as [name|].
    - f_equal. rewrite !map_map. apply map_ext. intros p. reflexivity.
    - now rewrite !length_map. }
  rewrite Ha, Hv. reflexivity.
Qed.

Lemma reset_index_map (f : polygon -> polygon) (hexes : list polygon) :
  reset_index (map f hexes) =
  map (fun h => (fst h, f (snd h))) (reset_index hexes).
Proof.
  unfold reset_index. rewrite length_map.
  generalize (range (Z.of_nat (List.length hexes))) as ks.
  induction hexes as [|g hexes IH]; intros [|k ks]; try reflexivity.
  cbn [map combine fst snd]. now rewrite IH.
Qed.

Lemma hotspots_shift (d : R) (weight_field : option string) (pts : frame)
    (bounds : R * R * R * R) (hex_radius_m : Z) :
  hotspots weight_field (shift_frame d pts)
           (map (map (shift_east d)) (layout_cells bounds hex_radius_m)) =
  map (shift_record d)
      (hotspots weight_field pts (layout_cells bounds hex_radius_m)).
Proof.
  rewrite !hotspots_records, reset_index_map, !map_map.
  apply map_ext_in. intros [id g] Hin. cbn [fst snd].
  assert (Hg : In g (layout_cells bounds hex_radius_m)).
  { rewrite <- (reset_index_snd (layout_cells bounds hex_radius_m)).
    now apply (in_map snd) in Hin. }
  unfold layout_cells in Hg.
  destruct (hex_cells_In _ _ _ _ _ _ _ _ Hg) as [cx [cy ->]].
  apply record_of_shift.
Qed.

Lemma sjoin_shift (d : R) (rs : list point_row) (hexes : list polygon) :
  sjoin (map (shift_row d) rs) (reset_index (map (map (shift_east d)) hexes)) =
  map (fun row => (shift_row d (fst row), snd row))
      (sjoin rs (reset_index hexes)).
Proof.
  rewrite reset_index_map. unfold sjoin.
  induction rs as [|p rs IH]; [reflexivity|].
  cbn [map flat_map]. rewrite map_app, IH. f_equal.
  generalize (reset_index hexes) as hex_gdf.
  induction hex_gdf as [|h hex_gdf IHh]; [reflexivity|].
  cbn [map flat_map fst snd]. rewrite map_app, IHh. f_equal.
  change (pt_xy (shift_row d p)) with (shift_east d (pt_xy p)).
  rewrite within_shift. now destruct (within (pt_xy p) (snd h)).
Qed.

Lemma group_shift (d : R) (joined : list (point_row * Z)) (k : Z) :
  group (map (fun row => (shift_row d (fst row), snd row)) joined) k =
  map (fun row => (shift_row d (fst row), snd row)) (group joined k).
Proof.
  unfold group. induction joined as [|row joined IH]; [reflexivity|].
  cbn [map filter fst snd]. rewrite IH.
  now destruct (Z.eqb (snd row) k).
Qed.

Lemma existsb_map_comp {A B : Type} (f : A -> B) (p : B -> bool)
    (l : list A) :
  existsb p (map f l) = existsb (fun a => p (f a)) l.
Proof.
  induction l as [|a l IH]; [reflexivity|]. cbn. now rewrite IH.
Qed.

Lemma weight_error_shift (d : R) (weight_field : option string)
    (pts : frame) (joined : list (point_row * Z)) :
  weight_error weight_field (shift_frame d pts)
    (map (fun row => (shift_row d (fst row), snd row)) joined) =
  weight_error weight_field pts joined.
Proof.
  unfold weight_error, aggregate.
  change (weighted weight_field (shift_frame d pts))
    with (weighted weight_field pts).
  destruct (weighted weight_field pts) as [name|]; [|reflexivity].
  destruct (String.eqb name "geometry"); [reflexivity|].
  assert (Hmixed : mixed_group name
                     (map (fun row => (shift_row d (fst row), snd row)) joined)
                   = mixed_group name joined).
  { unfold mixed_group. rewrite existsb_map_comp.
    apply existsb_pointwise. intros row. cbn [snd].
    rewrite group_shift, existsb_map_comp. reflexivity. }
  assert (Htext : existsb (text_cell name)
                    (map (fun row => (shift_row d (fst row), snd row)) joined)
                  = existsb (text_cell name) joined).
  { rewrite existsb_map_comp. reflexivity. }
  rewrite Hmixed, Htext.
  destruct (mixed_group name joined); [reflexivity|].
  destruct (existsb (text_cell name) joined); reflexivity.
Qed.

(** X14: the run commutes with a move of the data along a parallel.  If
    the points loaded from one set of inputs are those of another moved
    east by [d] degrees, the two runs end alike, and where a file is
    written the records agree in hex_id, value, area_km2 and
    density_per_km2 while every ring is moved east by [d] degrees: the
    tessellation is anchored at the data, not at the globe. *)
Theorem run_commutes_with_longitude_shift (d : R) (hex_m : Z)
    (inputs inputs' : list input_file) (weight_field : option string) :
  load_points inputs' = shift_frame d (load_points inputs) ->
  main hex_m inputs' weight_field =
  shift_outcome d (main hex_m inputs weight_field).
Proof.
  intros Hload. rewrite !main_unfold, Hload.
  assert (Hrows : rows (shift_frame d (load_points inputs)) =
                  map (shift_row d) (rows (load_points inputs)))
    by reflexivity.
  assert (Hempty : empty (shift_frame d (load_points inputs)) =
                   empty (load_points inputs)).
  { unfold empty. rewrite Hrows.
    now destruct (rows (load_points inputs)). }
  rewrite Hempty.
  destruct (empty (load_points inputs)) eqn:E; [reflexivity|].
  assert (Hne : rows (load_points inputs) <> []).
  { intros Hnil. unfold empty in E. rewrite Hnil in E. discriminate. }
  rewrite (total_bounds_shift d _ Hne).
  destruct (Z.eq_dec hex_m 0) as [-> | HR].
  - now rewrite !make_hex_grid_zero.
  - rewrite !make_hex_grid_nonzero by exact HR.
    rewrite layout_cells_shift, Hrows, sjoin_shift, weight_error_shift.
    destruct (weight_error weight_field (load_points inputs) _);
      [reflexivity|].
    cbn [shift_outcome]. f_equal. apply hotspots_shift.
Qed.

Lemma run_commutes_with_longitude_shift_witness :
  main 2000
       [Collection (Some EPSG4326)
          [ {| f_geometry := GPoint (lon_of 0 + 1) (lat_of 2000);
               f_props := []; f_text := [] |};
            {| f_geometry := GPoint (lon_of 1200 + 1) (lat_of 0);
               f_props := []; f_text := [] |};
            {| f_geometry := GPoint (lon_of 1200 + 1) (lat_of 2000);
               f_props := []; f_text := [] |} ]]
       None =
  Wrote (map (shift_record 1)
             (hotspots None (load_points (scenario_inputs [] [] []))
                       scenario_hexes)).
Proof.
  rewrite (run_commutes_with_longitude_shift 1 2000
             (scenario_inputs [] [] [])) by reflexivity.
  rewrite scenario_main by exact unweighted_run. reflexivity.
Defined.

(** ** Non-negative weights *)







